(** * URL monitor: a shallow embedding of [src/__init__.py]

    The component keeps, for every configured URL, a state ("Unknown",
    "Online", "Offline"), a status text and a [last_updated] timestamp in
    three parallel Python lists, refreshed by a check cycle that probes the
    URLs one after the other.

    Python lists are Rocq lists with stdpp's lookup and insert, item
    assignment out of range raises [IndexError]; Python ints are [Z];
    dictionaries are [gmap]s.  The coroutines are functions in a small
    monad that threads the monitor object, may raise, and logs every point
    at which the coroutine is suspended together with the monitor as it
    can be read by anybody else at that moment. *)

From Stdlib Require Import ZArith NArith String List Lia.
From stdpp Require Import base list strings gmap pretty.

Open Scope string_scope.
Open Scope list_scope.

(** ** [datetime] *)

(** A naive [datetime.datetime] (no tzinfo), as [datetime.now()] returns.
    Year, month and day start at 1, the other fields at 0. *)
Record datetime := mkDatetime {
  year : positive; month : positive; day : positive;
  hour : N; minute : N; second : N; microsecond : N
}.

(** [datetime.min] is [datetime(1, 1, 1, 0, 0)]. *)
Definition datetime_min : datetime := mkDatetime 1 1 1 0 0 0 0.

Definition fields (t : datetime) : list N :=
  [N.pos (year t); N.pos (month t); N.pos (day t);
   hour t; minute t; second t; microsecond t].

Fixpoint lex_compare (a b : list N) : comparison :=
  match a, b with
  | [], [] => Eq
  | [], _ :: _ => Lt
  | _ :: _, [] => Gt
  | x :: a', y :: b' =>
      match N.compare x y with
      | Eq => lex_compare a' b'
      | c => c
      end
  end.

(** Naive datetimes compare field by field, most significant first. *)
Definition dt_compare (s t : datetime) : comparison :=
  lex_compare (fields s) (fields t).

Definition dt_leb (s t : datetime) : bool :=
  match dt_compare s t with Gt => false | _ => true end.

Definition dt_le (s t : datetime) : Prop := dt_leb s t = true.

(** [str.zfill]-like padding used by the ["%04d"], ["%02d"] and ["%06d"]
    conversions of [isoformat]. *)
Fixpoint zeros (n : nat) : string :=
  match n with O => "" | S n' => "0" +:+ zeros n' end.

Definition zfill (w : nat) (s : string) : string :=
  zeros (w - String.length s) +:+ s.

(** [datetime.isoformat()] with the default separator and timespec: the
    fraction is printed only when the microsecond field is not zero. *)
Definition isoformat (t : datetime) : string :=
  zfill 4 (pretty (N.pos (year t))) +:+ "-" +:+
  zfill 2 (pretty (N.pos (month t))) +:+ "-" +:+
  zfill 2 (pretty (N.pos (day t))) +:+ "T" +:+
  zfill 2 (pretty (hour t)) +:+ ":" +:+ zfill 2 (pretty (minute t)) +:+ ":" +:+
  zfill 2 (pretty (second t)) +:+
  (if (microsecond t =? 0)%N then "" else "." +:+ zfill 6 (pretty (microsecond t))).

(** ** Exceptions *)

Inductive exn :=
| ClientError (msg : string)  (* aiohttp.ClientError or a subclass; [msg] is [str(e)] *)
| TimeoutError                (* asyncio.TimeoutError *)
| CancelledError              (* asyncio.CancelledError: how async_timeout interrupts the task when its deadline passes *)
| IndexError
| KeyError (key : string)
| NameError (name : string)
| OtherError (cls : string).  (* any other exception class *)

Inductive res (A : Type) :=
| Ret (a : A)
| Exc (e : exn).
Arguments Ret {A} a.
Arguments Exc {A} e.

(** ** The monitor object *)

(** The attributes of a [URLMonitorData] instance ([self.hass] is the host
    handle, kept in [HomeAssistant] below). *)
Record URLMonitorData := mkData {
  names : list string;
  urls : list string;
  states : list string;
  status : list string;
  last_updated : list datetime
}.

(** [URLMonitorData.__init__]: nothing in it can raise. *)
Definition __init__ (names urls : list string) : URLMonitorData :=
  {| names := names;
     urls := urls;
     states := replicate (length urls) "Unknown";
     status := replicate (length urls) "";
     last_updated := replicate (length urls) datetime_min |}.

(** The three lists have one slot per URL. *)
Definition wf (d : URLMonitorData) : Prop :=
  length (states d) = length (urls d) /\
  length (status d) = length (urls d) /\
  length (last_updated d) = length (urls d).

(** ** Coroutines *)

(** Where a coroutine of the check cycle can be suspended: entering
    [session.get(url)] (the request is in flight) and leaving the
    [async with ... as response] block (the response is released).  No
    other code runs between two suspensions of the same coroutine. *)
Inductive suspension :=
| AwaitGet (i : nat) (url : string)
| AwaitRelease (i : nat).

Record effect (A : Type) := mkEffect {
  seen : list (suspension * URLMonitorData);  (* the monitor as readable at each suspension, in order *)
  store : URLMonitorData;                     (* the monitor when the coroutine stops *)
  value : res A                               (* how it stops *)
}.
Arguments mkEffect {A} seen store value.
Arguments seen {A} e.
Arguments store {A} e.
Arguments value {A} e.

Definition M (A : Type) : Type := URLMonitorData -> effect A.

Definition ret {A} (a : A) : M A := fun d => mkEffect [] d (Ret a).

Definition raise {A} (e : exn) : M A := fun d => mkEffect [] d (Exc e).

Definition bind {A B} (m : M A) (f : A -> M B) : M B := fun d =>
  match m d with
  | mkEffect s d1 (Ret a) =>
      match f a d1 with
      | mkEffect s' d2 v => mkEffect (s ++ s') d2 v
      end
  | mkEffect s d1 (Exc e) => mkEffect s d1 (Exc e)
  end.

Declare Scope coroutine_scope.
Delimit Scope coroutine_scope with co.
Notation "m1 ;; m2" := (bind m1 (fun _ => m2))
  (at level 100, m2 at level 200, right associativity) : coroutine_scope.
Open Scope coroutine_scope.

(** [try: body except ...: handler]; [handler e = None] when no [except]
    clause matches [e]. *)
Definition try_except {A} (body : M A) (handler : exn -> option (M A)) : M A := fun d =>
  match body d with
  | mkEffect s d1 (Ret a) => mkEffect s d1 (Ret a)
  | mkEffect s d1 (Exc e) =>
      match handler e with
      | Some h =>
          match h d1 with
          | mkEffect s' d2 v => mkEffect (s ++ s') d2 v
          end
      | None => mkEffect s d1 (Exc e)
      end
  end.

Definition await (p : suspension) : M unit := fun d => mkEffect [(p, d)] d (Ret tt).

(** [l[i] = x] on a Python list. *)
Definition setitem {A} (l : list A) (i : nat) (x : A) : res (list A) :=
  if decide (i < length l) then Ret (<[i:=x]> l) else Exc IndexError.

Definition set_states (i : nat) (v : string) : M unit := fun d =>
  match setitem (states d) i v with
  | Ret l => mkEffect [] (mkData (names d) (urls d) l (status d) (last_updated d)) (Ret tt)
  | Exc e => mkEffect [] d (Exc e)
  end.

Definition set_status (i : nat) (v : string) : M unit := fun d =>
  match setitem (status d) i v with
  | Ret l => mkEffect [] (mkData (names d) (urls d) (states d) l (last_updated d)) (Ret tt)
  | Exc e => mkEffect [] d (Exc e)
  end.

Definition set_last_updated (i : nat) (v : datetime) : M unit := fun d =>
  match setitem (last_updated d) i v with
  | Ret l => mkEffect [] (mkData (names d) (urls d) (states d) (status d) l) (Ret tt)
  | Exc e => mkEffect [] d (Exc e)
  end.

(** ** The network and the clock *)

(** What [session.get(url)] does for one probe. *)
Inductive get_result :=
| Responded (code : Z) (release : option exn)
    (* a response with [response.status = code]; [release] is the exception
       raised while the [async with] block is left, if any *)
| Raised (e : exn).
    (* no response: the request raised [e] *)

(** One probe as the environment decides it: the fate of the request and
    the value [datetime.now()] returns when it is read for this probe. *)
Record probe := mkProbe {
  request : get_result;
  now : datetime
}.

(** ** [URLMonitorData._check_urls] *)

(** The body of the [for] loop, lines 87 to 103. *)
Definition check_one (ev : probe) (i : nat) (url : string) : M unit :=
  try_except
    (await (AwaitGet i url) ;;
     match request ev with
     | Raised e => raise e
     | Responded code release =>
         (if (code =? 200)%Z
          then (set_states i "Online" ;; set_status i "OK")
          else (set_states i "Offline" ;; set_status i ("HTTP " +:+ pretty code))) ;;
         await (AwaitRelease i) ;;
         match release with
         | Some e => raise e
         | None => ret tt
         end
     end ;;
     set_last_updated i (now ev))
    (fun e =>
       match e with
       | ClientError msg =>
           Some (set_states i "Offline" ;; set_status i msg ;;
                 set_last_updated i (now ev))
       | TimeoutError =>
           Some (set_states i "Offline" ;; set_status i "Timeout" ;;
                 set_last_updated i (now ev))
       | _ => None
       end).

(** [for i, url in enumerate(l, start)]: the loop stops at the first
    iteration that raises. *)
Fixpoint for_enumerate (body : nat -> string -> M unit) (start : nat) (l : list string) : M unit :=
  match l with
  | [] => ret tt
  | url :: l' => body start url ;; for_enumerate body (S start) l'
  end.

(** One check cycle; [env i] is what happens to the probe of [urls[i]]. *)
Definition _check_urls (env : nat -> probe) : M unit := fun d =>
  for_enumerate (fun i url => check_one (env i) i url) 0 (urls d) d.

(** ** Scheduling: [async_update] and [async_setup] *)

Definition DOMAIN : string := "my_url_monitor".

(** [homeassistant.const.CONF_NAME] and [CONF_URL]. *)
Definition CONF_NAME : string := "name".
Definition CONF_URL : string := "url".

(** The part of the host the component touches: the [hass.data] dictionary
    and the interval timers registered so far.  Every timer the component
    registers has the same action, [self.async_update], and the same
    period, so their number is all there is to know about them. *)
Record HomeAssistant := mkHass {
  data : gmap string URLMonitorData;
  listeners : nat
}.

(** [async_track_time_interval(self.hass, self.async_update, timedelta(hours=1))]
    adds one recurring timer; nothing in the source ever removes one. *)
Definition async_track_time_interval (h : HomeAssistant) : HomeAssistant :=
  mkHass (data h) (S (listeners h)).

(** [async with async_timeout.timeout(10): body].  When the deadline passes
    the task is interrupted with [CancelledError] at the point it is
    suspended at, and the context manager turns that into [TimeoutError]
    on the way out; everything else passes through.  Whether and where the
    deadline passes is the environment's choice (a [CancelledError] in the
    probe's [get_result]). *)
Definition timeout (body : M unit) : M unit := fun d =>
  match body d with
  | mkEffect s d1 (Exc CancelledError) => mkEffect s d1 (Exc TimeoutError)
  | r => r
  end.

(** What one call of a coroutine on the host leaves behind. *)
Record invocation := mkInvocation {
  hass_after : HomeAssistant;
  observed : list (suspension * URLMonitorData);
  outcome : res unit
}.

(** [URLMonitorData.async_update]; [self] is the object [hass.data[DOMAIN]]
    refers to, so what the cycle writes is what the dictionary holds. *)
Definition async_update (env : nat -> probe) (h : HomeAssistant) : invocation :=
  match data h !! DOMAIN with
  | None => mkInvocation h [] (Exc (KeyError DOMAIN))
  | Some self =>
      let r := timeout (_check_urls env) self in
      let h' := mkHass (<[DOMAIN := store r]> (data h)) (listeners h) in
      match value r with
      | Ret _ => mkInvocation (async_track_time_interval h') (seen r) (Ret tt)
      | Exc e => mkInvocation h' (seen r) (Exc e)
      end
  end.

(** [async_setup] up to the creation of the task: the configuration
    look-ups (a missing key raises [KeyError]) and the construction of the
    monitor.  The first cycle runs in a task of its own, see [startup]. *)
Definition async_setup (h : HomeAssistant)
    (config : gmap string (gmap string (list string))) : res HomeAssistant :=
  match config !! DOMAIN with
  | None => Exc (KeyError DOMAIN)
  | Some section =>
      match section !! CONF_NAME with
      | None => Exc (KeyError CONF_NAME)
      | Some names =>
          match section !! CONF_URL with
          | None => Exc (KeyError CONF_URL)
          | Some urls => Ret (mkHass (<[DOMAIN := __init__ names urls]> (data h)) (listeners h))
          end
      end
  end.

(** [async_setup] followed by the task it creates,
    [hass.data[DOMAIN].async_update()]. *)
Definition startup (h : HomeAssistant)
    (config : gmap string (gmap string (list string)))
    (first : nat -> probe) : res invocation :=
  match async_setup h config with
  | Ret h' => Ret (async_update first h')
  | Exc e => Exc e
  end.

(** Calling the bound method [self.async_update] with the positional
    arguments [args].  Line 77 gives it no parameter besides [self]: with
    no argument the body runs, and with any argument the call raises
    [TypeError] before the body starts. *)
Definition call_async_update (args : list datetime) (env : nat -> probe)
    (h : HomeAssistant) : invocation :=
  match args with
  | [] => async_update env h
  | _ :: _ => mkInvocation h [] (Exc (OtherError "TypeError"))
  end.

(** The life of the process after start-up: [firings] lists, in order, the
    firings of an interval timer, each with the time it fires at and the
    network as it is then.  A timer has to be registered for one to fire.
    The host calls the listener of an interval timer with the firing time,
    and the listener registered on line 81 is [self.async_update]: a firing
    is the call [self.async_update(now)].  The result is the host at the
    end and what every such call left behind. *)
Fixpoint run (firings : list (datetime * (nat -> probe))) (h : HomeAssistant)
    : HomeAssistant * list invocation :=
  match firings with
  | [] => (h, [])
  | (fired_at, env) :: rest =>
      match listeners h with
      | O => (h, [])
      | S _ =>
          let r := call_async_update [fired_at] env h in
          let '(h', rs) := run rest (hass_after r) in
          (h', r :: rs)
      end
  end.

(** Successive check cycles on one monitor object, however they come to be
    started: what each of them leaves behind. *)
Fixpoint cycles (envs : list (nat -> probe)) (d : URLMonitorData) : list (effect unit) :=
  match envs with
  | [] => []
  | env :: rest => let r := _check_urls env d in r :: cycles rest (store r)
  end.

(** The monitor after the cycles [envs]. *)
Definition after (envs : list (nat -> probe)) (d : URLMonitorData) : URLMonitorData :=
  fold_left (fun d env => store (_check_urls env d)) envs d.

(** The probe of [urls[i]] was started in a cycle: the cycle got as far as
    [session.get(urls[i])]. *)
Definition attempted (r : effect unit) (i : nat) : bool :=
  existsb (fun o => match fst o with
                    | AwaitGet j _ => Nat.eqb j i
                    | AwaitRelease _ => false
                    end) (seen r).

(** ** The sensor entity *)

Record URLMonitor := mkSensor {
  _data : URLMonitorData;
  _index : Z
}.

(** [l[i]] on a Python list: a negative index counts from the end. *)
Definition getitem {A} (l : list A) (i : Z) : res A :=
  let n := Z.of_nat (length l) in
  let j := if (i <? 0)%Z then (i + n)%Z else i in
  if (0 <=? j)%Z && (j <? n)%Z
  then match l !! Z.to_nat j with
       | Some x => Ret x
       | None => Exc IndexError
       end
  else Exc IndexError.

Definition name (self : URLMonitor) : string :=
  "URL Monitor " +:+ pretty (_index self + 1)%Z.

Definition state (self : URLMonitor) : res string :=
  getitem (states (_data self)) (_index self).

Definition icon (self : URLMonitor) : res string :=
  match getitem (states (_data self)) (_index self) with
  | Ret s => Ret (if decide (s = "Online") then "mdi:link" else "mdi:link-off")
  | Exc e => Exc e
  end.

Definition extra_state_attributes (self : URLMonitor) : res (gmap string string) :=
  match getitem (urls (_data self)) (_index self) with
  | Exc e => Exc e
  | Ret u =>
      match getitem (status (_data self)) (_index self) with
      | Exc e => Exc e
      | Ret s =>
          match getitem (last_updated (_data self)) (_index self) with
          | Exc e => Exc e
          | Ret t =>
              Ret (<["Last Updated" := isoformat t]>
                     (<["Status" := s]> (<["URL" := u]> ∅)))
          end
      end
  end.

(** [URLMonitorData.sensors]. *)
Definition sensors (self : URLMonitorData) : list URLMonitor :=
  map (fun i => mkSensor self (Z.of_nat i)) (seq 0 (length (urls self))).

(** ** Loading the module *)

(** The statements of the module body as far as name binding goes: the
    names a statement looks up while it executes, in the order it looks
    them up, and the names it binds when it completes. *)
Record stmt := mkStmt {
  text : string;
  loads : list string;
  binds : list string
}.

(** Names that resolve without the module binding them: the module's own
    [__name__] and the builtins the module body mentions. *)
Definition predefined : gset string :=
  list_to_set ["__name__"; "str"; "int"; "bool"; "property"].

Definition module_body : list stmt :=
  [ mkStmt "import asyncio" [] ["asyncio"];
    mkStmt "import logging" [] ["logging"];
    mkStmt "from datetime import datetime, timedelta" [] ["datetime"; "timedelta"];
    mkStmt "from typing import Any, Callable, Dict, List, Optional" []
           ["Any"; "Callable"; "Dict"; "List"; "Optional"];
    mkStmt "import async_timeout" [] ["async_timeout"];
    mkStmt "import aiohttp" [] ["aiohttp"];
    mkStmt "from homeassistant.components.sensor import SensorEntity" [] ["SensorEntity"];
    mkStmt "from homeassistant.config_entries import ConfigEntry" [] ["ConfigEntry"];
    mkStmt "from homeassistant.const import CONF_NAME, CONF_URL" [] ["CONF_NAME"; "CONF_URL"];
    mkStmt "from homeassistant.core import HomeAssistant" [] ["HomeAssistant"];
    mkStmt "from homeassistant.helpers.event import async_track_time_interval" []
           ["async_track_time_interval"];
    mkStmt "_LOGGER = logging.getLogger(__name__)" ["logging"; "__name__"] ["_LOGGER"];
    mkStmt "DOMAIN = 'my_url_monitor'" [] ["DOMAIN"];
    mkStmt "CONFIG_SCHEMA = {DOMAIN: {vol.Required(CONF_NAME): ..., vol.Required(CONF_URL): ...}}"
           ["DOMAIN"; "vol"; "CONF_NAME"; "vol"; "cv"; "cv";
            "vol"; "CONF_URL"; "vol"; "cv"; "cv"]
           ["CONFIG_SCHEMA"];
    mkStmt "async def async_setup(hass: HomeAssistant, config: Dict[str, Any]) -> bool"
           ["HomeAssistant"; "Dict"; "str"; "Any"; "bool"] ["async_setup"];
    mkStmt "class URLMonitor(SensorEntity)"
           ["SensorEntity"; "int"; "property"; "str"; "property"; "str";
            "property"; "str"; "property"; "Dict"; "str"; "Any"]
           ["URLMonitor"];
    mkStmt "class URLMonitorData"
           ["HomeAssistant"; "List"; "str"; "List"; "str"; "property"; "List"; "URLMonitor"]
           ["URLMonitorData"] ].

(** Looking names up one after the other; the first unbound one raises. *)
Fixpoint lookup_names (globals : gset string) (l : list string) : res unit :=
  match l with
  | [] => Ret tt
  | x :: l' =>
      if decide (x ∈ globals ∪ predefined) then lookup_names globals l'
      else Exc (NameError x)
  end.

(** Executing the module body: the names bound when execution stops, and
    the exception that stopped it, if any. *)
Fixpoint load (body : list stmt) (globals : gset string) : gset string * option exn :=
  match body with
  | [] => (globals, None)
  | s :: rest =>
      match lookup_names globals (loads s) with
      | Exc e => (globals, Some e)
      | Ret _ => load rest (list_to_set (binds s) ∪ globals)
      end
  end.

(** ** Vocabulary of the statements *)

(** The two assignments of a classification, and the time stamp. *)
Definition classify (d : URLMonitorData) (i : nat) (st sx : string) : URLMonitorData :=
  mkData (names d) (urls d) (<[i:=st]> (states d)) (<[i:=sx]> (status d)) (last_updated d).

Definition stamp (d : URLMonitorData) (i : nat) (t : datetime) : URLMonitorData :=
  mkData (names d) (urls d) (states d) (status d) (<[i:=t]> (last_updated d)).

(** The status text an [except] clause of the loop body stores for [e],
    [None] when no clause catches [e]. *)
Definition caught (e : exn) : option string :=
  match e with
  | ClientError msg => Some msg
  | TimeoutError => Some "Timeout"
  | _ => None
  end.

Definition on_response (d : URLMonitorData) (i : nat) (code : Z) : URLMonitorData :=
  if (code =? 200)%Z then classify d i "Online" "OK"
  else classify d i "Offline" ("HTTP " +:+ pretty code).

(** The exception that leaves the loop body for a probe, if any. *)
Definition escaping (ev : probe) : option exn :=
  match request ev with
  | Responded _ None => None
  | Responded _ (Some e) | Raised e =>
      match caught e with
      | Some _ => None
      | None => Some e
      end
  end.

(** The loop of [_check_urls] from slot [start] on. *)
Abbreviation loop env := (for_enumerate (fun i url => check_one (env i) i url)).

(** Every state and status that sit in the same slot satisfy [P]. *)
Definition pairs_satisfy (P : string -> string -> Prop) (d : URLMonitorData) : Prop :=
  forall i s x, states d !! i = Some s -> status d !! i = Some x -> P s x.

(** The invariant of the specification, and the half of it that does not
    depend on what the network says. *)
Definition online_iff_ok : URLMonitorData -> Prop :=
  pairs_satisfy (fun s x => s = "Online" <-> x = "OK").
Definition online_implies_ok : URLMonitorData -> Prop :=
  pairs_satisfy (fun s x => s = "Online" -> x = "OK").

(** No network error of the probe has the text "OK". *)
Definition ok_free (ev : probe) : bool :=
  match request ev with
  | Raised (ClientError msg) | Responded _ (Some (ClientError msg)) =>
      negb (String.eqb msg "OK")
  | _ => true
  end.

(** Every monitor anybody can read in the course of the cycles [envs]
    started on [d]: [d] itself, then cycle by cycle the monitor at each
    suspension and at the end of the cycle. *)
Definition history (envs : list (nat -> probe)) (d : URLMonitorData) : list URLMonitorData :=
  d :: flat_map (fun r => map snd (seen r) ++ [store r]) (cycles envs d).

(** The clock does not run backwards: of two readings, the one taken in an
    earlier cycle, or in the same cycle for a slot that is not later, is
    not the greater one. *)
Definition clock_nondecreasing (envs : list (nat -> probe)) : Prop :=
  forall a b env env' j j',
    envs !! a = Some env -> envs !! b = Some env' ->
    a < b \/ (a = b /\ j <= j') ->
    dt_le (now (env j)) (now (env' j')).

(** A configuration with the two lists under the component's domain. *)
Definition config_of (ns us : list string) : gmap string (gmap string (list string)) :=
  {[ DOMAIN := <[CONF_URL := us]> {[ CONF_NAME := ns ]} ]}.

(** ** Vocabulary of the further properties *)

(** Python's [enumerate(l, start)]. *)
Fixpoint enumerate (start : nat) (l : list string) : list (nat * string) :=
  match l with
  | [] => []
  | x :: l' => (start, x) :: enumerate (S start) l'
  end.

(** The requests a coroutine has issued, in order, each with the slot it
    is for and the URL it goes to. *)
Definition requests_of (s : list (suspension * URLMonitorData)) : list (nat * string) :=
  flat_map (fun o => match fst o with
                     | AwaitGet i url => [(i, url)]
                     | AwaitRelease _ => []
                     end) s.

Definition requests (r : effect unit) : list (nat * string) := requests_of (seen r).

(** State and status a probe leaves in its slot when it lets no exception
    out. *)
Definition verdict (ev : probe) : string * string :=
  match request ev with
  | Responded code None =>
      if (code =? 200)%Z then ("Online", "OK") else ("Offline", "HTTP " +:+ pretty code)
  | Responded _ (Some e) | Raised e => ("Offline", default "" (caught e))
  end.

(** The three values a state can have. *)
Definition known_state (s : string) : Prop :=
  s = "Unknown" \/ s = "Online" \/ s = "Offline".

(** The monitor with another names list, and what a coroutine leaves
    behind with the names replaced throughout. *)
Definition with_names (ns : list string) (d : URLMonitorData) : URLMonitorData :=
  mkData ns (urls d) (states d) (status d) (last_updated d).

Definition effect_with_names (ns : list string) (r : effect unit) : effect unit :=
  mkEffect (map (fun o => (fst o, with_names ns (snd o))) (seen r))
           (with_names ns (store r)) (value r).

(** * Properties *)

(** ** The order on datetimes *)

Lemma lex_compare_refl (a : list N) : lex_compare a a = Eq.
Proof.
  induction a as [|x a IH]; simpl; [reflexivity|].
  rewrite N.compare_refl. exact IH.
Qed.

Lemma lex_compare_trans_le (a b c : list N) :
  lex_compare a b <> Gt -> lex_compare b c <> Gt -> lex_compare a c <> Gt.
Proof.
  revert b c. induction a as [|x a IH]; intros [|y b] [|z c]; simpl; try congruence.
  destruct (N.compare_spec x y) as [->|Hxy|Hxy]; try congruence.
  - destruct (N.compare_spec y z) as [->|Hyz|Hyz]; try congruence.
    apply IH.
  - intros _.
    destruct (N.compare_spec y z) as [->|Hyz|Hyz]; try congruence.
    + intros _. destruct (N.compare_spec x z); try congruence; lia.
    + intros _. destruct (N.compare_spec x z); try congruence; lia.
Qed.

Lemma dt_le_refl (t : datetime) : dt_le t t.
Proof. unfold dt_le, dt_leb, dt_compare. now rewrite lex_compare_refl. Qed.

Lemma dt_le_trans (s t u : datetime) : dt_le s t -> dt_le t u -> dt_le s u.
Proof.
  unfold dt_le, dt_leb, dt_compare. intros Hst Htu.
  pose proof (lex_compare_trans_le (fields s) (fields t) (fields u)) as H.
  destruct (lex_compare (fields s) (fields t)); try discriminate;
    destruct (lex_compare (fields t) (fields u)); try discriminate;
    destruct (lex_compare (fields s) (fields u)); try reflexivity;
    exfalso; apply H; congruence.
Qed.

(** [datetime.min] is the least datetime. *)
Lemma datetime_min_le (t : datetime) : dt_le datetime_min t.
Proof.
  destruct t as [y mo d h mi s us].
  unfold dt_le, dt_leb, dt_compare. cbn -[N.compare].
  destruct (N.compare_spec 1 (N.pos y)); try reflexivity; try lia.
  destruct (N.compare_spec 1 (N.pos mo)); try reflexivity; try lia.
  destruct (N.compare_spec 1 (N.pos d)); try reflexivity; try lia.
  destruct (N.compare_spec 0 h); try reflexivity; try lia.
  destruct (N.compare_spec 0 mi); try reflexivity; try lia.
  destruct (N.compare_spec 0 s); try reflexivity; try lia.
  destruct (N.compare_spec 0 us); try reflexivity; lia.
Qed.

(** ** One probe, in closed form *)

Lemma wf_classify d i st sx : wf d -> wf (classify d i st sx).
Proof. unfold wf, classify. simpl. rewrite !length_insert. tauto. Qed.

Lemma wf_stamp d i t : wf d -> wf (stamp d i t).
Proof. unfold wf, stamp. simpl. rewrite !length_insert. tauto. Qed.

Lemma wf_on_response d i code : wf d -> wf (on_response d i code).
Proof. unfold on_response. destruct (code =? 200)%Z; apply wf_classify. Qed.

Lemma wf_init names urls : wf (__init__ names urls).
Proof. unfold wf, __init__. simpl. rewrite !length_replicate. tauto. Qed.

Ltac in_range :=
  repeat (match goal with
          | |- context [decide (?a < ?b)] =>
              destruct (decide (a < b)) as [?|Hn];
              [| exfalso; apply Hn; cbn; rewrite ?length_insert; lia]
          end; cbn).

Lemma check_one_unfold (ev : probe) (i : nat) (url : string) (d : URLMonitorData) :
  wf d -> i < length (urls d) ->
  check_one ev i url d =
  match request ev with
  | Responded code release =>
      let d1 := on_response d i code in
      match release with
      | None =>
          mkEffect [(AwaitGet i url, d); (AwaitRelease i, d1)] (stamp d1 i (now ev)) (Ret tt)
      | Some e =>
          match caught e with
          | Some msg =>
              mkEffect [(AwaitGet i url, d); (AwaitRelease i, d1)]
                       (stamp (classify d1 i "Offline" msg) i (now ev)) (Ret tt)
          | None => mkEffect [(AwaitGet i url, d); (AwaitRelease i, d1)] d1 (Exc e)
          end
      end
  | Raised e =>
      match caught e with
      | Some msg =>
          mkEffect [(AwaitGet i url, d)] (stamp (classify d i "Offline" msg) i (now ev)) (Ret tt)
      | None => mkEffect [(AwaitGet i url, d)] d (Exc e)
      end
  end.
Proof.
  intros (Hs & Hx & Hl) Hi.
  unfold check_one, try_except, bind, await, raise, ret,
    set_states, set_status, set_last_updated, setitem, on_response.
  destruct (request ev) as [code [e|]|e].
  - destruct (code =? 200)%Z; in_range; destruct e; cbn; in_range; reflexivity.
  - destruct (code =? 200)%Z; in_range; reflexivity.
  - destruct e; cbn; in_range; reflexivity.
Qed.

Lemma check_one_value ev i url d :
  wf d -> i < length (urls d) ->
  value (check_one ev i url d) =
  match escaping ev with None => Ret tt | Some e => Exc e end.
Proof.
  intros Hwf Hi. rewrite check_one_unfold by assumption. unfold escaping.
  destruct (request ev) as [code [e|]|e]; simpl; try reflexivity;
    destruct (caught e); reflexivity.
Qed.

Lemma check_one_seen_get ev i url d :
  wf d -> i < length (urls d) ->
  exists tl, seen (check_one ev i url d) = (AwaitGet i url, d) :: tl /\
             Forall (fun o => fst o = AwaitRelease i) tl.
Proof.
  intros Hwf Hi. rewrite check_one_unfold by assumption.
  destruct (request ev) as [code [e|]|e]; simpl;
    try destruct (caught e); simpl; eexists; split; try reflexivity;
    repeat constructor.
Qed.

(** What one probe never touches. *)
Lemma check_one_static ev i url d :
  wf d -> i < length (urls d) ->
  let r := check_one ev i url d in
  wf (store r) /\ urls (store r) = urls d /\ names (store r) = names d.
Proof.
  intros Hwf Hi. rewrite check_one_unfold by assumption.
  destruct (request ev) as [code [e|]|e]; simpl;
    try destruct (caught e); simpl;
    unfold on_response; destruct_and?;
    repeat match goal with |- context [(?c =? 200)%Z] => destruct (c =? 200)%Z end;
    simpl; (split; [|split]); try reflexivity;
    repeat (first [apply wf_stamp | apply wf_classify]); assumption.
Qed.

Lemma check_one_frame ev i url d j :
  wf d -> i < length (urls d) -> j <> i ->
  let r := check_one ev i url d in
  states (store r) !! j = states d !! j /\
  status (store r) !! j = status d !! j /\
  last_updated (store r) !! j = last_updated d !! j.
Proof.
  intros Hwf Hi Hj. rewrite check_one_unfold by assumption.
  destruct (request ev) as [code [e|]|e]; simpl;
    try destruct (caught e); simpl;
    unfold on_response;
    repeat match goal with |- context [(?c =? 200)%Z] => destruct (c =? 200)%Z end;
    simpl; rewrite ?list_lookup_insert_ne by congruence; auto.
Qed.

(** The monitor as it can be read while a probe is suspended: as it was
    before the probe, or with the classification of the response and the
    old time stamp. *)
Lemma check_one_seen ev i url d :
  wf d -> i < length (urls d) ->
  Forall (fun o => snd o = d \/ exists code, snd o = on_response d i code)
         (seen (check_one ev i url d)).
Proof.
  intros Hwf Hi. rewrite check_one_unfold by assumption.
  destruct (request ev) as [code [e|]|e]; simpl;
    try destruct (caught e); simpl;
    repeat (apply Forall_cons; split; [simpl; eauto|]); apply Forall_nil; exact I.
Qed.

(** ** Sequencing *)

Lemma bind_ret {A B} (m : M A) (f : A -> M B) d a :
  value (m d) = Ret a ->
  bind m f d =
  mkEffect (seen (m d) ++ seen (f a (store (m d))))
           (store (f a (store (m d)))) (value (f a (store (m d)))).
Proof.
  unfold bind. destruct (m d) as [s d1 [a'|e]]; simpl; intros H; [|discriminate].
  injection H as ->. destruct (f a d1); reflexivity.
Qed.

Lemma bind_exc {A B} (m : M A) (f : A -> M B) d e :
  value (m d) = Exc e ->
  bind m f d = mkEffect (seen (m d)) (store (m d)) (Exc e).
Proof.
  unfold bind. destruct (m d) as [s d1 [a'|e']]; simpl; intros H; [discriminate|].
  injection H as ->. reflexivity.
Qed.

Lemma timeout_seen body d : seen (timeout body d) = seen (body d).
Proof. unfold timeout. destruct (body d) as [s d1 [a|[]]]; reflexivity. Qed.

Lemma timeout_store body d : store (timeout body d) = store (body d).
Proof. unfold timeout. destruct (body d) as [s d1 [a|[]]]; reflexivity. Qed.

Lemma timeout_value body d :
  value (timeout body d) =
  match value (body d) with
  | Exc CancelledError => Exc TimeoutError
  | v => v
  end.
Proof. unfold timeout. destruct (body d) as [s d1 [a|[]]]; reflexivity. Qed.

(** ** The loop *)

Lemma loop_cons env start url l d :
  wf d -> start < length (urls d) ->
  loop env start (url :: l) d =
  let r := check_one (env start) start url d in
  match escaping (env start) with
  | None =>
      let r' := loop env (S start) l (store r) in
      mkEffect (seen r ++ seen r') (store r') (value r')
  | Some e => mkEffect (seen r) (store r) (Exc e)
  end.
Proof.
  intros Hwf Hi. cbn [for_enumerate].
  pose proof (check_one_value (env start) start url d Hwf Hi) as Hv.
  destruct (escaping (env start)) as [e|].
  - now rewrite (bind_exc _ _ _ _ Hv).
  - now rewrite (bind_ret _ _ _ _ Hv).
Qed.

Section Cycle.

Variable env : nat -> probe.

(** A property of the monitor that every probe of the cycle preserves,
    at the suspensions inside the probe as well as at its end. *)
Variable I : URLMonitorData -> Prop.
Hypothesis I_wf : forall d, I d -> wf d.
Hypothesis I_step : forall i url d,
  I d -> i < length (urls d) ->
  I (store (check_one (env i) i url d)) /\
  Forall (fun o => I (snd o)) (seen (check_one (env i) i url d)).

Lemma loop_invariant l start d :
  I d -> start + length l = length (urls d) ->
  I (store (loop env start l d)) /\
  Forall (fun o => I (snd o)) (seen (loop env start l d)).
Proof.
  revert start d. induction l as [|url l IH]; intros start d HI Hlen.
  - simpl. split; [assumption | constructor].
  - simpl in Hlen.
    assert (Hi : start < length (urls d)) by lia.
    rewrite loop_cons by auto.
    destruct (I_step start url d HI Hi) as [HI1 Hseen1].
    destruct (check_one_static (env start) start url d (I_wf d HI) Hi) as (_ & Hu & _).
    destruct (escaping (env start)); cbn [store seen]; [now split|].
    destruct (IH (S start) (store (check_one (env start) start url d)) HI1) as [HI2 Hseen2].
    { rewrite Hu. lia. }
    split; [assumption|]. apply Forall_app. now split.
Qed.

Lemma check_urls_invariant d :
  I d ->
  I (store (_check_urls env d)) /\
  Forall (fun o => I (snd o)) (seen (_check_urls env d)).
Proof. intros HI. unfold _check_urls. now apply loop_invariant. Qed.

End Cycle.

(** The three lists keep one slot per URL, and a cycle changes neither the
    URLs nor the names. *)
Lemma check_urls_wf env d :
  wf d ->
  wf (store (_check_urls env d)) /\
  Forall (fun o => wf (snd o)) (seen (_check_urls env d)).
Proof.
  intros Hwf. apply (check_urls_invariant env wf); auto.
  intros i url d' Hwf' Hi. split.
  - now apply check_one_static.
  - eapply Forall_impl; [apply check_one_seen; assumption|].
    intros o [->|[code ->]]; auto using wf_on_response.
Qed.

Lemma on_response_urls d i code : urls (on_response d i code) = urls d.
Proof. unfold on_response. now destruct (code =? 200)%Z. Qed.

Lemma check_urls_urls env d :
  wf d -> urls (store (_check_urls env d)) = urls d.
Proof.
  intros Hwf.
  apply (check_urls_invariant env (fun d' => wf d' /\ urls d' = urls d)); [tauto| |tauto].
  intros i url d' [Hwf' Hu] Hi.
  destruct (check_one_static (env i) i url d' Hwf' Hi) as (H1 & H2 & _).
  split; [split; [assumption | congruence]|].
  eapply Forall_impl; [apply check_one_seen; assumption|].
  intros o [->|[code ->]]; split; auto using wf_on_response.
  now rewrite on_response_urls.
Qed.

(** A loop that starts above [i] leaves slot [i] alone. *)
Lemma loop_frame_below env l start d i :
  wf d -> start + length l = length (urls d) -> i < start ->
  let r := loop env start l d in
  states (store r) !! i = states d !! i /\
  status (store r) !! i = status d !! i /\
  last_updated (store r) !! i = last_updated d !! i.
Proof.
  revert start d. induction l as [|url l IH]; intros start d Hwf Hlen Hi; simpl in Hlen.
  - simpl. auto.
  - assert (Hs : start < length (urls d)) by lia.
    rewrite loop_cons by auto.
    destruct (check_one_static (env start) start url d Hwf Hs) as (Hwf1 & Hu & _).
    destruct (check_one_frame (env start) start url d i Hwf Hs) as (F1 & F2 & F3); [lia|].
    destruct (escaping (env start)); cbn [store]; [auto|].
    destruct (IH (S start) (store (check_one (env start) start url d))) as (G1 & G2 & G3);
      [assumption | rewrite Hu; lia | lia |].
    cbn zeta in *. repeat split; congruence.
Qed.

(** A probe that lets an exception out has not written a new time stamp,
    and has written nothing at all when the request itself raised. *)
Lemma check_one_escaping ev i url d e :
  wf d -> i < length (urls d) -> escaping ev = Some e ->
  let r := check_one ev i url d in
  last_updated (store r) = last_updated d /\
  (request ev = Raised e -> store r = d).
Proof.
  intros Hwf Hi He. rewrite check_one_unfold by assumption. unfold escaping in He.
  destruct (request ev) as [code [e'|]|e']; simpl; try discriminate;
    destruct (caught e'); try discriminate; simpl.
  - split; [|discriminate]. unfold on_response. now destruct (code =? 200)%Z.
  - now split.
Qed.

(** The cycle stops at the first probe that lets an exception out: the
    slots above it are as they were, and so is its own time stamp. *)
Lemma loop_abort env l start d k e :
  wf d -> start + length l = length (urls d) ->
  start <= k < length (urls d) ->
  (forall j, start <= j < k -> escaping (env j) = None) ->
  escaping (env k) = Some e ->
  let r := loop env start l d in
  value r = Exc e /\
  (forall i, k < i ->
     states (store r) !! i = states d !! i /\
     status (store r) !! i = status d !! i /\
     last_updated (store r) !! i = last_updated d !! i) /\
  last_updated (store r) !! k = last_updated d !! k /\
  (request (env k) = Raised e ->
     states (store r) !! k = states d !! k /\
     status (store r) !! k = status d !! k).
Proof.
  revert start d. induction l as [|url l IH]; intros start d Hwf Hlen Hk Hbefore He;
    simpl in Hlen; [lia|].
  assert (Hs : start < length (urls d)) by lia.
  rewrite loop_cons by auto.
  destruct (check_one_static (env start) start url d Hwf Hs) as (Hwf1 & Hu & _).
  destruct (decide (start = k)) as [->|Hne].
  - rewrite He. cbn [value store].
    destruct (check_one_escaping (env k) k url d e Hwf Hs He) as [Hl Hreq].
    split; [reflexivity|]. split; [|split].
    + intros i Hi. apply check_one_frame; auto. lia.
    + now rewrite Hl.
    + intros Hr. now rewrite (Hreq Hr).
  - rewrite (Hbefore start) by lia. cbn [value store].
    set (d1 := store (check_one (env start) start url d)) in *.
    destruct (IH (S start) d1) as (Hv & Habove & Hlk & Hraised); auto.
    { rewrite Hu. lia. } { rewrite Hu. lia. } { intros j Hj. apply Hbefore. lia. }
    assert (Hframe : forall i, k <= i ->
              states d1 !! i = states d !! i /\ status d1 !! i = status d !! i /\
              last_updated d1 !! i = last_updated d !! i).
    { intros i Hi. apply check_one_frame; auto. lia. }
    split; [assumption|]. split; [|split].
    + intros i Hi. destruct (Habove i Hi) as (A1 & A2 & A3).
      destruct (Hframe i) as (B1 & B2 & B3); [lia|]. repeat split; congruence.
    + destruct (Hframe k) as (_ & _ & B3); [lia|]. congruence.
    + intros Hr. destruct (Hraised Hr) as [A1 A2].
      destruct (Hframe k) as (B1 & B2 & _); [lia|]. split; congruence.
Qed.

Lemma attempted_app s1 d1 v1 s2 d2 v2 i :
  attempted (mkEffect (s1 ++ s2) d2 v2) i =
  attempted (mkEffect s1 d1 v1) i || attempted (mkEffect s2 d2 v2) i.
Proof. unfold attempted. simpl. apply existsb_app. Qed.

Lemma check_one_attempted ev i url d j :
  wf d -> i < length (urls d) ->
  forall d' v, attempted (mkEffect (seen (check_one ev i url d)) d' v) j = Nat.eqb i j.
Proof.
  intros Hwf Hi d' v.
  destruct (check_one_seen_get ev i url d Hwf Hi) as (tl & -> & Htl).
  unfold attempted. simpl.
  replace (existsb _ tl) with false; [apply orb_false_r|].
  symmetry. induction Htl as [|[p d0] tl Hp _ IH]; simpl; [reflexivity|].
  simpl in Hp. subst p. exact IH.
Qed.

(** A slot is attempted exactly when no earlier probe of the cycle lets an
    exception out. *)
Lemma loop_attempted env l start d i :
  wf d -> start + length l = length (urls d) ->
  start <= i < length (urls d) ->
  (forall j, start <= j < i -> escaping (env j) = None) ->
  attempted (loop env start l d) i = true.
Proof.
  revert start d. induction l as [|url l IH]; intros start d Hwf Hlen Hi Hbefore;
    simpl in Hlen; [lia|].
  assert (Hs : start < length (urls d)) by lia.
  rewrite loop_cons by auto.
  destruct (check_one_static (env start) start url d Hwf Hs) as (Hwf1 & Hu & _).
  destruct (decide (start = i)) as [->|Hne].
  - destruct (escaping (env i)); cbn zeta.
    + rewrite check_one_attempted by auto. apply Nat.eqb_refl.
    + rewrite (attempted_app _ d (Ret tt)), check_one_attempted by auto.
      now rewrite Nat.eqb_refl.
  - rewrite (Hbefore start) by lia. cbn zeta.
    rewrite (attempted_app _ d (Ret tt)). apply orb_true_iff. right.
    set (d1 := store (check_one (env start) start url d)) in *.
    specialize (IH (S start) d1).
    destruct (loop env (S start) l d1) as [s' d' v'] eqn:E. simpl. apply IH; auto.
    + rewrite Hu. lia.
    + rewrite Hu. lia.
    + intros j Hj. apply Hbefore. lia.
Qed.

(** * The claims *)

(** ** Classification of a probe *)

(** C2, as stated, fails on two counts.  The only timeout the source sets
    is the one around the whole cycle: when it fires while a request is in
    flight the probe is interrupted by a cancellation, the cycle ends with
    the timeout error, and the slot still reads "Unknown" with an empty
    status, not "Offline" and "Timeout".  And a response with status 200
    does not end up "Online" when releasing it fails with a network error:
    the slot then reads "Offline" with the text of the error. *)
Lemma timeout_records_no_timeout :
  let t := mkDatetime 2024 5 17 9 3 0 0 in
  let d := __init__ ["A"] ["https://slow.example"] in
  let stall := fun _ : nat => mkProbe (Raised CancelledError) t in
  let dropped := mkProbe (Responded 200 (Some (ClientError "Server disconnected"))) t in
  (value (timeout (_check_urls stall) d) = Exc TimeoutError /\
   states (store (timeout (_check_urls stall) d)) !! 0 = Some "Unknown" /\
   status (store (timeout (_check_urls stall) d)) !! 0 = Some "") /\
  (value (check_one dropped 0 "https://slow.example" d) = Ret tt /\
   states (store (check_one dropped 0 "https://slow.example" d)) !! 0 = Some "Offline" /\
   status (store (check_one dropped 0 "https://slow.example" d)) !! 0
     = Some "Server disconnected").
Proof. cbv zeta. repeat split; reflexivity. Qed.

(** C2, amended.  One probe of the URL in slot [i].  A response with
    status 200 stores state "Online" and status "OK", and a response with
    any other status code [c] stores "Offline" and "HTTP c", unless the
    release of the response fails with a network error or a request
    timeout.  A network error ([aiohttp.ClientError]), raised by the
    request or by the release of its response, stores "Offline" and the
    error's text; an [asyncio.TimeoutError] raised there stores "Offline"
    and "Timeout".  The cycle-level timeout is none of these: it
    interrupts the request with a cancellation, nothing is written for the
    URL and the cancellation leaves the probe. *)
Theorem probe_classification (ev : probe) (i : nat) (url : string) (d : URLMonitorData) :
  wf d -> i < length (urls d) ->
  let r := check_one ev i url d in
  (forall release, request ev = Responded 200 release ->
     (forall msg, release <> Some (ClientError msg)) -> release <> Some TimeoutError ->
     states (store r) !! i = Some "Online" /\ status (store r) !! i = Some "OK") /\
  (forall c release, c <> 200%Z -> request ev = Responded c release ->
     (forall msg, release <> Some (ClientError msg)) -> release <> Some TimeoutError ->
     states (store r) !! i = Some "Offline" /\
     status (store r) !! i = Some ("HTTP " +:+ pretty c)) /\
  (forall msg,
     request ev = Raised (ClientError msg) \/
     (exists c, request ev = Responded c (Some (ClientError msg))) ->
     states (store r) !! i = Some "Offline" /\ status (store r) !! i = Some msg) /\
  (request ev = Raised TimeoutError \/
   (exists c, request ev = Responded c (Some TimeoutError)) ->
     states (store r) !! i = Some "Offline" /\ status (store r) !! i = Some "Timeout") /\
  (request ev = Raised CancelledError ->
     value r = Exc CancelledError /\ store r = d).
Proof.
  intros Hwf Hi. pose proof Hwf as (Hs & Hx & Hl).
  assert (Hlen : forall code, length (states (on_response d i code)) = length (states d) /\
                              length (status (on_response d i code)) = length (status d)).
  { intros code. unfold on_response. destruct (code =? 200)%Z; simpl;
      rewrite !length_insert; auto. }
  rewrite check_one_unfold by assumption.
  split; [|split; [|split; [|split]]].
  - intros release -> H1 H2. unfold on_response. simpl.
    destruct release as [e|]; [|simpl; split; apply list_lookup_insert_eq; lia].
    destruct e; simpl; try (split; apply list_lookup_insert_eq; lia);
      [destruct (H1 msg) | destruct H2]; reflexivity.
  - intros c release Hc -> H1 H2. unfold on_response.
    destruct (Z.eqb_spec c 200) as [|_]; [contradiction|].
    destruct release as [e|]; [|simpl; split; apply list_lookup_insert_eq; lia].
    destruct e; simpl; try (split; apply list_lookup_insert_eq; lia);
      [destruct (H1 msg) | destruct H2]; reflexivity.
  - intros msg [-> | [c ->]]; simpl.
    + split; apply list_lookup_insert_eq; lia.
    + destruct (Hlen c) as [L1 L2]. split; apply list_lookup_insert_eq; lia.
  - intros [-> | [c ->]]; simpl.
    + split; apply list_lookup_insert_eq; lia.
    + destruct (Hlen c) as [L1 L2]. split; apply list_lookup_insert_eq; lia.
  - intros ->. simpl. split; reflexivity.
Qed.

Lemma probe_classification_witness :
  let d := __init__ ["A"] ["https://bad.example"] in
  let ev := mkProbe (Responded 404 (Some CancelledError)) (mkDatetime 2024 5 17 9 3 0 0) in
  states (store (check_one ev 0 "https://bad.example" d)) !! 0 = Some "Offline" /\
  status (store (check_one ev 0 "https://bad.example" d)) !! 0 = Some "HTTP 404".
Proof.
  intros d ev.
  assert (Hi : 0 < length (urls d)) by (simpl; lia).
  destruct (probe_classification ev 0 "https://bad.example" d (wf_init _ _) Hi)
    as (_ & H & _).
  apply (H 404%Z (Some CancelledError)); [lia | reflexivity | discriminate | discriminate].
Defined.

(** ** Exceptions and the loop body *)

(** C4, as stated, fails: the exception with which the cycle-level timeout
    interrupts a request is caught by neither [except] clause; it leaves
    the loop body and nothing is recorded for the URL. *)
Lemma probe_exception_escapes :
  let d := __init__ ["A"] ["https://slow.example"] in
  let ev := mkProbe (Raised CancelledError) (mkDatetime 2024 5 17 9 3 0 0) in
  wf d /\ 0 < length (urls d) /\
  value (check_one ev 0 "https://slow.example" d) = Exc CancelledError /\
  store (check_one ev 0 "https://slow.example" d) = d.
Proof. cbv zeta. split; [apply wf_init|]. split; [simpl; lia|]. split; reflexivity. Qed.

(** C4, amended.  A failure of the request, or of the release of its
    response, that is an [aiohttp.ClientError] or an
    [asyncio.TimeoutError] never leaves the loop body: the body ends
    normally with "Offline", the error text (or "Timeout") and the time
    stamp recorded for the URL.  Every other exception leaves the loop
    body as it is. *)
Theorem probe_failure_handling (ev : probe) (i : nat) (url : string)
    (d : URLMonitorData) (e : exn) :
  wf d -> i < length (urls d) ->
  request ev = Raised e \/ (exists code, request ev = Responded code (Some e)) ->
  let r := check_one ev i url d in
  (forall msg, e = ClientError msg ->
     value r = Ret tt /\
     states (store r) !! i = Some "Offline" /\
     status (store r) !! i = Some msg /\
     last_updated (store r) !! i = Some (now ev)) /\
  (e = TimeoutError ->
     value r = Ret tt /\
     states (store r) !! i = Some "Offline" /\
     status (store r) !! i = Some "Timeout" /\
     last_updated (store r) !! i = Some (now ev)) /\
  ((forall msg, e <> ClientError msg) -> e <> TimeoutError -> value r = Exc e).
Proof.
  intros Hwf Hi Hreq. pose proof Hwf as (Hs & Hx & Hl).
  rewrite check_one_unfold by assumption.
  assert (Hlen : forall code, length (states (on_response d i code)) = length (states d) /\
                              length (status (on_response d i code)) = length (status d) /\
                              length (last_updated (on_response d i code)) = length (last_updated d)).
  { intros code. unfold on_response. destruct (code =? 200)%Z; simpl;
      rewrite !length_insert; auto. }
  destruct Hreq as [-> | [code ->]]; [|destruct (Hlen code) as (L1 & L2 & L3)];
    (split; [|split]).
  - intros msg ->. simpl. repeat split; apply list_lookup_insert_eq; lia.
  - intros ->. simpl. repeat split; apply list_lookup_insert_eq; lia.
  - intros H1 H2. destruct e; simpl; try reflexivity; [destruct (H1 msg) | destruct H2]; reflexivity.
  - intros msg ->. simpl. repeat split; apply list_lookup_insert_eq; lia.
  - intros ->. simpl. repeat split; apply list_lookup_insert_eq; lia.
  - intros H1 H2. destruct e; simpl; try reflexivity; [destruct (H1 msg) | destruct H2]; reflexivity.
Qed.

Lemma probe_failure_handling_witness :
  let d := __init__ ["A"] ["https://down.example"] in
  let t := mkDatetime 2024 5 17 9 3 0 0 in
  let ev := mkProbe (Raised (ClientError "Cannot connect to host")) t in
  let r := check_one ev 0 "https://down.example" d in
  value r = Ret tt /\
  states (store r) !! 0 = Some "Offline" /\
  status (store r) !! 0 = Some "Cannot connect to host" /\
  last_updated (store r) !! 0 = Some t.
Proof.
  intros d t ev r.
  assert (Hi : 0 < length (urls d)) by (simpl; lia).
  destruct (probe_failure_handling ev 0 "https://down.example" d
              (ClientError "Cannot connect to host") (wf_init _ _) Hi
              (or_introl eq_refl)) as (H & _).
  exact (H "Cannot connect to host" eq_refl).
Defined.

(** ** State and status together *)

Lemma history_cons env envs d :
  history (env :: envs) d =
  d :: map snd (seen (_check_urls env d)) ++ history envs (store (_check_urls env d)).
Proof. unfold history. simpl. now rewrite <- app_assoc. Qed.

Section History.

Variable I : URLMonitorData -> Prop.
Variable Q : probe -> Prop.
Hypothesis I_wf : forall d, I d -> wf d.
Hypothesis I_step : forall ev i url d,
  Q ev -> I d -> i < length (urls d) ->
  I (store (check_one ev i url d)) /\
  Forall (fun o => I (snd o)) (seen (check_one ev i url d)).

Lemma history_invariant envs d :
  I d -> (forall env, env ∈ envs -> forall j, Q (env j)) ->
  Forall I (history envs d).
Proof.
  revert d. induction envs as [|env envs IH]; intros d HI HQ.
  - unfold history. simpl. repeat constructor. assumption.
  - rewrite history_cons.
    destruct (check_urls_invariant env I I_wf) with (d := d) as [Hstore Hseen]; auto.
    { intros i url d' HI' Hi. apply I_step; auto. apply HQ. left. }
    constructor; [assumption|]. apply Forall_app. split.
    + now apply Forall_fmap.
    + apply IH; [assumption|]. intros env' Hin. apply HQ. now right.
Qed.

End History.

Lemma pairs_classify P d i st sx :
  pairs_satisfy P d -> P st sx ->
  length (states d) = length (status d) ->
  pairs_satisfy P (classify d i st sx).
Proof.
  intros Hd HP Hlen j s x. unfold classify. simpl.
  rewrite !list_lookup_insert_Some.
  intros [(-> & -> & _)|[Hne Hs]] [(Heq & -> & _)|[Hne' Hx]]; try congruence.
  eapply Hd; eassumption.
Qed.

Lemma pairs_stamp P d i t : pairs_satisfy P d -> pairs_satisfy P (stamp d i t).
Proof. intros Hd j s x. unfold stamp. simpl. apply Hd. Qed.

(** What it takes for one probe to keep [P] true of every slot, at its
    suspensions and at its end. *)
Lemma check_one_pairs (P : string -> string -> Prop) ev i url d :
  wf d -> i < length (urls d) ->
  P "Online" "OK" ->
  (forall c, c <> 200%Z -> P "Offline" ("HTTP " +:+ pretty c)) ->
  P "Offline" "Timeout" ->
  (forall msg, ok_free ev = true -> msg <> "OK" -> P "Offline" msg) ->
  (ok_free ev = false -> P "Offline" "OK") ->
  pairs_satisfy P d ->
  pairs_satisfy P (store (check_one ev i url d)) /\
  Forall (fun o => pairs_satisfy P (snd o)) (seen (check_one ev i url d)).
Proof.
  intros Hwf Hi Hon Hhttp Hto Hmsg Hbad Hd. pose proof Hwf as (Hs & Hx & Hl).
  assert (Hresp : forall code, pairs_satisfy P (on_response d i code)).
  { intros code. unfold on_response. destruct (Z.eqb_spec code 200).
    - apply pairs_classify; auto; congruence.
    - apply pairs_classify; auto; congruence. }
  assert (Hcaught : forall e msg d',
            request ev = Raised e \/ (exists c, request ev = Responded c (Some e)) ->
            caught e = Some msg -> pairs_satisfy P d' ->
            length (states d') = length (status d') ->
            pairs_satisfy P (classify d' i "Offline" msg)).
  { intros e msg d' Hreq Hc Hd' Hlen. apply pairs_classify; auto.
    destruct e; simpl in Hc; try discriminate; injection Hc as <-; [|exact Hto].
    destruct (ok_free ev) eqn:Hok.
    - apply Hmsg; [reflexivity|]. intros ->. unfold ok_free in Hok.
      destruct Hreq as [Hr|[c Hr]]; rewrite Hr in Hok; discriminate.
    - assert (msg0 = "OK") as ->; [|now apply Hbad].
      unfold ok_free in Hok.
      destruct (request ev) as [c' [[]|]|[]]; try discriminate;
        destruct Hreq as [Hr|[c Hr]]; try discriminate; injection Hr as <-;
        try subst; apply negb_false_iff, String.eqb_eq in Hok; congruence. }
  split.
  - rewrite check_one_unfold by assumption.
    destruct (request ev) as [code [e|]|e] eqn:Hreq; simpl.
    + destruct (caught e) as [msg|] eqn:Hc; simpl; auto.
      apply pairs_stamp. eapply Hcaught; eauto.
      unfold on_response. destruct (code =? 200)%Z; simpl; rewrite !length_insert; congruence.
    + apply pairs_stamp. auto.
    + destruct (caught e) as [msg|] eqn:Hc; simpl; auto.
      apply pairs_stamp. eapply Hcaught; eauto. congruence.
  - eapply Forall_impl; [apply check_one_seen; assumption|].
    intros o [->|[code ->]]; auto.
Qed.

Lemma pairs_init P names urls : P "Unknown" "" -> pairs_satisfy P (__init__ names urls).
Proof.
  intros HP i s x. unfold __init__. simpl.
  rewrite !lookup_replicate. intros [-> _] [-> _]. exact HP.
Qed.

(** C6, as stated, fails: the text of a network error is stored as it is,
    and it can be "OK".  With the string "OK" configured as the URL the
    request is refused with an invalid-URL error whose text is the URL
    itself, and the slot then reads "Offline" with status "OK". *)
Lemma offline_with_status_ok :
  let d := __init__ ["A"] ["OK"] in
  let env := fun _ : nat => mkProbe (Raised (ClientError "OK")) (mkDatetime 2024 5 17 9 3 0 0) in
  let d' := store (_check_urls env d) in
  d' ∈ history [env] d /\
  states d' !! 0 = Some "Offline" /\ status d' !! 0 = Some "OK" /\
  ~ online_iff_ok d'.
Proof.
  cbv zeta. split.
  { rewrite history_cons. apply list_elem_of_further, elem_of_app. right.
    apply list_elem_of_here. }
  split; [reflexivity|]. split; [reflexivity|].
  intros H. specialize (H 0 "Offline" "OK" eq_refl eq_refl).
  destruct H as [_ H]. specialize (H eq_refl). discriminate.
Qed.

(** C6, amended.  Whatever cycles run on a monitor after its construction,
    at every moment at which it can be read (between cycles and at every
    suspension of a cycle) and for every target: state "Online" comes with
    status "OK"; and status "OK" comes with state "Online" as long as no
    network error had the text "OK". *)
Theorem state_status_consistency (names urls : list string)
    (envs : list (nat -> probe)) (d : URLMonitorData) :
  d ∈ history envs (__init__ names urls) ->
  online_implies_ok d /\
  ((forall env, env ∈ envs -> forall j, ok_free (env j) = true) -> online_iff_ok d).
Proof.
  intros Hd. split.
  - assert (H : Forall (fun d => wf d /\ online_implies_ok d) (history envs (__init__ names urls))).
    { apply (history_invariant _ (fun _ => True)); try tauto.
      - intros ev i url d0 _ [Hwf Hd0] Hi. split.
        + split; [now apply check_one_static|].
          apply check_one_pairs; auto; intros; discriminate.
        + pose proof (check_one_seen ev i url d0 Hwf Hi) as Hseen.
          assert (Hp : Forall (fun o => online_implies_ok (snd o)) (seen (check_one ev i url d0))).
          { apply check_one_pairs; auto; intros; discriminate. }
          rewrite Forall_forall in *. intros o Ho. split; [|now apply Hp].
          destruct (Hseen o Ho) as [->|[c ->]]; auto using wf_on_response.
      - split; [apply wf_init|]. apply pairs_init. discriminate. }
    rewrite Forall_forall in H. now apply H.
  - intros Hok.
    assert (H : Forall (fun d => wf d /\ online_iff_ok d) (history envs (__init__ names urls))).
    { apply (history_invariant _ (fun ev => ok_free ev = true)); try tauto.
      - intros ev i url d0 Hev [Hwf Hd0] Hi.
        assert (Hp : online_iff_ok (store (check_one ev i url d0)) /\
                     Forall (fun o => online_iff_ok (snd o)) (seen (check_one ev i url d0))).
        { apply check_one_pairs; auto.
          - tauto.
          - intros c _. split; discriminate.
          - split; discriminate.
          - intros msg _ Hmsg. split; [discriminate | contradiction].
          - congruence. }
        destruct Hp as [Hp1 Hp2]. split.
        + split; [now apply check_one_static | assumption].
        + pose proof (check_one_seen ev i url d0 Hwf Hi) as Hseen.
          rewrite Forall_forall in *. intros o Ho. split; [|now apply Hp2].
          destruct (Hseen o Ho) as [->|[c ->]]; auto using wf_on_response.
      - split; [apply wf_init|]. apply pairs_init. split; discriminate. }
    rewrite Forall_forall in H. now apply H.
Qed.

Lemma state_status_consistency_witness :
  let t := mkDatetime 2024 5 17 9 3 0 0 in
  let env := fun j : nat =>
    match j with
    | 0 => mkProbe (Responded 200 None) t
    | _ => mkProbe (Raised (ClientError "Cannot connect to host")) t
    end in
  online_iff_ok
    (store (_check_urls env (__init__ ["A"; "B"] ["https://good.example"; "https://bad.example"]))).
Proof.
  intros t env.
  refine (proj2 (state_status_consistency ["A"; "B"]
                   ["https://good.example"; "https://bad.example"] [env] _ _) _).
  - rewrite history_cons. apply list_elem_of_further, elem_of_app. right.
    apply list_elem_of_here.
  - intros env' Hin j. apply list_elem_of_singleton in Hin. subst env'.
    destruct j as [|j]; reflexivity.
Defined.

(** ** Time stamps *)

Lemma check_one_last_updated ev i url d :
  wf d -> i < length (urls d) ->
  last_updated (store (check_one ev i url d)) =
  match escaping ev with
  | None => <[i:=now ev]> (last_updated d)
  | Some _ => last_updated d
  end.
Proof.
  intros Hwf Hi. rewrite check_one_unfold by assumption. unfold escaping.
  destruct (request ev) as [code [e|]|e]; simpl; try destruct (caught e); simpl;
    unfold on_response; try destruct (code =? 200)%Z; simpl; auto.
Qed.

(** After a cycle a time stamp is the one stored before, or the clock as
    read for the probe of that slot in this cycle. *)
Lemma check_urls_last_updated env d i t :
  wf d ->
  last_updated (store (_check_urls env d)) !! i = Some t ->
  last_updated d !! i = Some t \/ t = now (env i).
Proof.
  intros Hwf.
  pose (I := fun d' => wf d' /\ forall t, last_updated d' !! i = Some t ->
                       last_updated d !! i = Some t \/ t = now (env i)).
  assert (HI : I (store (_check_urls env d))).
  { apply (check_urls_invariant env I); [unfold I; tauto | | split; auto].
    intros i0 url d' [Hwf' Hd'] Hi0.
    split; [split; [now apply check_one_static|] |].
    - intros t0.
      rewrite check_one_last_updated by assumption.
      destruct (escaping (env i0)); [apply Hd'|].
      rewrite list_lookup_insert_Some. intros [(-> & <- & _)|[_ H]]; auto.
    - eapply Forall_impl; [apply check_one_seen; assumption|].
      intros o [->|[code ->]]; split; auto using wf_on_response.
      unfold on_response. destruct (code =? 200)%Z; exact Hd'. }
  intros H. now apply HI.
Qed.

Lemma after_app l1 l2 d : after (l1 ++ l2) d = after l2 (after l1 d).
Proof. unfold after. apply fold_left_app. Qed.

Lemma after_wf envs d : wf d -> wf (after envs d).
Proof.
  revert d. induction envs as [|env envs IH]; intros d Hwf; [assumption|].
  apply IH. now apply check_urls_wf.
Qed.

(** After several cycles a time stamp is the one stored before them, or
    the clock as read for that slot in one of them. *)
Lemma after_last_updated envs d i t :
  wf d ->
  last_updated (after envs d) !! i = Some t ->
  last_updated d !! i = Some t \/
  exists a env, envs !! a = Some env /\ t = now (env i).
Proof.
  revert d. induction envs as [|env envs IH]; intros d Hwf H; [now left|].
  change (after (env :: envs) d) with (after envs (store (_check_urls env d))) in H.
  destruct (IH _ (proj1 (check_urls_wf env d Hwf)) H) as [H0|(a & env' & Ha & ->)].
  - destruct (check_urls_last_updated env d i t Hwf H0) as [?| ->]; [now left|].
    right. exists 0, env. now split.
  - right. exists (S a), env'. now split.
Qed.

(** C7.  With a clock that does not run backwards, the last_updated of a
    target never decreases: what is stored after [n] cycles is no later
    than what is stored after [m >= n] cycles, so every completed check
    writes a time stamp no earlier than the one it replaces. *)
Theorem last_updated_nondecreasing (names urls : list string)
    (envs : list (nat -> probe)) (n m i : nat) (t t' : datetime) :
  clock_nondecreasing envs -> n <= m ->
  last_updated (after (take n envs) (__init__ names urls)) !! i = Some t ->
  last_updated (after (take m envs) (__init__ names urls)) !! i = Some t' ->
  dt_le t t'.
Proof.
  intros Hclock Hnm Ht Ht'.
  replace m with (n + (m - n)) in Ht' by lia.
  rewrite <- take_take_drop, after_app in Ht'.
  set (d1 := after (take n envs) (__init__ names urls)) in *.
  assert (Hwf1 : wf d1) by apply after_wf, wf_init.
  destruct (after_last_updated _ d1 i t' Hwf1 Ht') as [H|(b & env' & Hb & ->)].
  { assert (t = t') as -> by congruence. apply dt_le_refl. }
  apply lookup_take_Some in Hb as [Hb _]. rewrite lookup_drop in Hb.
  destruct (after_last_updated _ _ i t (wf_init names urls) Ht) as [H|(a & env & Ha & ->)].
  - unfold __init__ in H. simpl in H. apply lookup_replicate in H as [-> _].
    apply datetime_min_le.
  - apply lookup_take_Some in Ha as [Ha Han].
    apply (Hclock a (n + b) env env' i i Ha Hb). lia.
Qed.

Lemma last_updated_nondecreasing_witness :
  let t1 := mkDatetime 2024 5 17 9 3 0 0 in
  let t2 := mkDatetime 2024 5 17 10 3 1 0 in
  let envs := [ (fun _ : nat => mkProbe (Responded 200 None) t1);
                (fun _ : nat => mkProbe (Raised TimeoutError) t2) ] in
  let d0 := __init__ ["A"] ["https://a.example"] in
  last_updated (after (take 1 envs) d0) !! 0 = Some t1 /\
  last_updated (after (take 2 envs) d0) !! 0 = Some t2 /\
  dt_le t1 t2.
Proof.
  intros t1 t2 envs d0.
  split; [reflexivity|]. split; [reflexivity|].
  apply (last_updated_nondecreasing ["A"] ["https://a.example"] envs 1 2 0).
  - intros [|[|a]] [|[|b]] env env' j j' Ha Hb Hab; simpl in Ha, Hb;
      try discriminate; try lia;
      injection Ha as <-; injection Hb as <-; reflexivity.
  - lia.
  - reflexivity.
  - reflexivity.
Defined.

(** ** The Last Updated attribute *)

Lemma getitem_nat {A} (l : list A) (i : nat) :
  getitem l (Z.of_nat i) =
  match l !! i with
  | Some x => Ret x
  | None => Exc IndexError
  end.
Proof.
  unfold getitem.
  destruct (Z.ltb_spec (Z.of_nat i) 0) as [?|_]; [lia|].
  destruct (Z.leb_spec 0 (Z.of_nat i)) as [_|?]; [|lia]. simpl.
  rewrite Nat2Z.id.
  destruct (Z.ltb_spec (Z.of_nat i) (Z.of_nat (length l))) as [H|H].
  - reflexivity.
  - rewrite (proj2 (lookup_ge_None l i)) by lia. reflexivity.
Qed.

Lemma attributes_of_slot d i u x t :
  urls d !! i = Some u -> status d !! i = Some x -> last_updated d !! i = Some t ->
  extra_state_attributes (mkSensor d (Z.of_nat i)) =
  Ret (<["Last Updated" := isoformat t]> (<["Status" := x]> (<["URL" := u]> ∅))).
Proof.
  intros Hu Hx Ht. unfold extra_state_attributes. simpl.
  rewrite !getitem_nat, Hu, Hx, Ht. reflexivity.
Qed.

(** A cycle that lets an exception out at or before slot [i] leaves the
    time stamp of slot [i] alone. *)
Lemma loop_stops_before env l start d i :
  wf d -> start + length l = length (urls d) ->
  (exists k, start <= k <= i /\ escaping (env k) <> None) ->
  last_updated (store (loop env start l d)) !! i = last_updated d !! i.
Proof.
  revert start d. induction l as [|url l IH]; intros start d Hwf Hlen (k & Hk & He);
    simpl in Hlen; [reflexivity|].
  assert (Hs : start < length (urls d)) by lia.
  rewrite loop_cons by auto.
  destruct (check_one_static (env start) start url d Hwf Hs) as (Hwf1 & Hu & _).
  pose proof (check_one_last_updated (env start) start url d Hwf Hs) as Hl.
  destruct (escaping (env start)) eqn:E; cbn [store].
  - now rewrite Hl.
  - assert (start <> k) by congruence.
    rewrite IH; auto.
    + rewrite Hl. apply list_lookup_insert_ne. lia.
    + rewrite Hu. lia.
    + exists k. split; [lia | assumption].
Qed.

(** A cycle in which no probe up to slot [i] lets an exception out stores
    the clock as read for that probe in slot [i]. *)
Lemma loop_completed env l start d i :
  wf d -> start + length l = length (urls d) ->
  start <= i < length (urls d) ->
  (forall j, start <= j <= i -> escaping (env j) = None) ->
  last_updated (store (loop env start l d)) !! i = Some (now (env i)).
Proof.
  revert start d. induction l as [|url l IH]; intros start d Hwf Hlen Hi Hok;
    simpl in Hlen; [lia|].
  assert (Hs : start < length (urls d)) by lia.
  rewrite loop_cons by auto.
  destruct (check_one_static (env start) start url d Hwf Hs) as (Hwf1 & Hu & _).
  pose proof (check_one_last_updated (env start) start url d Hwf Hs) as Hl.
  rewrite (Hok start) in * by lia. cbn [store].
  destruct (decide (start = i)) as [->|Hne].
  - destruct (loop_frame_below env l (S i) (store (check_one (env i) i url d)) i)
      as (_ & _ & ->); auto; [rewrite Hu; lia|].
    rewrite Hl. apply list_lookup_insert_eq. destruct Hwf as (_ & _ & ->). lia.
  - apply IH; auto.
    + rewrite Hu. lia.
    + rewrite Hu. lia.
    + intros j Hj. apply Hok. lia.
Qed.

Lemma after_urls envs d : wf d -> urls (after envs d) = urls d.
Proof.
  revert d. induction envs as [|env envs IH]; intros d Hwf; [reflexivity|].
  change (after (env :: envs) d) with (after envs (store (_check_urls env d))).
  rewrite IH by now apply check_urls_wf. now apply check_urls_urls.
Qed.

Lemma after_stops_before envs d i :
  wf d ->
  (forall env, env ∈ envs -> exists k, k <= i /\ escaping (env k) <> None) ->
  last_updated (after envs d) !! i = last_updated d !! i.
Proof.
  revert d. induction envs as [|env envs IH]; intros d Hwf Hstop; [reflexivity|].
  change (after (env :: envs) d) with (after envs (store (_check_urls env d))).
  rewrite IH.
  - destruct (Hstop env) as (k & Hk & He); [left|].
    unfold _check_urls. apply loop_stops_before; auto.
    exists k. split; [lia | assumption].
  - now apply check_urls_wf.
  - intros env' Hin. apply Hstop. now right.
Qed.

Lemma attributes_last_updated d i t :
  wf d -> last_updated d !! i = Some t ->
  exists m, extra_state_attributes (mkSensor d (Z.of_nat i)) = Ret m /\
            m !! "Last Updated" = Some (isoformat t).
Proof.
  intros (Hs & Hx & Hl) Ht.
  pose proof (lookup_lt_Some _ _ _ Ht) as Hi.
  destruct (lookup_lt_is_Some_2 (urls d) i) as [u Hu]; [lia|].
  destruct (lookup_lt_is_Some_2 (status d) i) as [x Hx']; [lia|].
  exists (<["Last Updated" := isoformat t]> (<["Status" := x]> (<["URL" := u]> ∅))).
  split; [now apply attributes_of_slot|].
  apply lookup_insert_eq.
Qed.

(** C8.  For a configured target whose check has never completed (every
    cycle so far let an exception out at or before its slot), the
    attribute map reports as Last Updated the ISO form of [datetime.min],
    "0001-01-01T00:00:00", which is the component's marker for "not yet
    checked".  Once a check of the target has completed, the map reports
    the ISO-8601 form of the time of the latest completed check. *)
Theorem last_updated_attribute (ns us : list string) (i : nat) :
  i < length us ->
  (forall envs,
     (forall env, env ∈ envs -> exists k, k <= i /\ escaping (env k) <> None) ->
     exists m,
       extra_state_attributes (mkSensor (after envs (__init__ ns us)) (Z.of_nat i)) = Ret m /\
       m !! "Last Updated" = Some "0001-01-01T00:00:00") /\
  (forall envs env later,
     (forall j, j <= i -> escaping (env j) = None) ->
     (forall env', env' ∈ later -> exists k, k <= i /\ escaping (env' k) <> None) ->
     exists m,
       extra_state_attributes
         (mkSensor (after (envs ++ env :: later) (__init__ ns us)) (Z.of_nat i)) = Ret m /\
       m !! "Last Updated" = Some (isoformat (now (env i)))).
Proof.
  intros Hi. split.
  - intros envs Hstop.
    change "0001-01-01T00:00:00" with (isoformat datetime_min).
    apply attributes_last_updated; [apply after_wf, wf_init|].
    rewrite after_stops_before by auto using wf_init.
    unfold __init__. simpl. now apply lookup_replicate_2.
  - intros envs env later Hdone Hstop.
    apply attributes_last_updated; [apply after_wf, wf_init|].
    rewrite after_app.
    set (d1 := after envs (__init__ ns us)).
    assert (Hwf1 : wf d1) by apply after_wf, wf_init.
    assert (Hu1 : urls d1 = us) by (unfold d1; now rewrite after_urls by apply wf_init).
    change (after (env :: later) d1) with (after later (store (_check_urls env d1))).
    rewrite after_stops_before; [|now apply check_urls_wf | assumption].
    unfold _check_urls. apply loop_completed; auto.
    + rewrite Hu1. lia.
    + intros j Hj. apply Hdone. lia.
Qed.

Lemma last_updated_attribute_witness :
  let t := mkDatetime 2024 5 17 9 3 0 120 in
  let stalled := fun _ : nat => mkProbe (Raised CancelledError) t in
  let answered := fun _ : nat => mkProbe (Responded 200 None) t in
  let d0 := __init__ ["A"] ["https://a.example"] in
  (exists m, extra_state_attributes (mkSensor (after [stalled] d0) 0) = Ret m /\
             m !! "Last Updated" = Some "0001-01-01T00:00:00") /\
  (exists m, extra_state_attributes (mkSensor (after [stalled; answered] d0) 0) = Ret m /\
             m !! "Last Updated" = Some "2024-05-17T09:03:00.000120").
Proof.
  intros t stalled answered d0.
  assert (Hi : 0 < length ["https://a.example"]) by (simpl; lia).
  destruct (last_updated_attribute ["A"] ["https://a.example"] 0 Hi) as [Hnever Hdone].
  split.
  - apply (Hnever [stalled]). intros env Hin.
    apply list_elem_of_singleton in Hin. subst env.
    exists 0. split; [lia | discriminate].
  - apply (Hdone [stalled] answered []).
    + intros j _. reflexivity.
    + intros env' Hin. inversion Hin.
Defined.

(** ** Scheduling *)

Lemma async_setup_config_of h ns us :
  async_setup h (config_of ns us) =
  Ret (mkHass (<[DOMAIN := __init__ ns us]> (data h)) (listeners h)).
Proof.
  unfold async_setup, config_of. rewrite lookup_singleton_eq.
  rewrite lookup_insert_ne by discriminate. rewrite lookup_singleton_eq.
  rewrite lookup_insert_eq. reflexivity.
Qed.

(** No timer, no cycle: the process stays as it is. *)
Lemma run_without_listener firings h :
  listeners h = 0 -> run firings h = (h, []).
Proof. intros H. destruct firings as [|[fired_at env] rest]; simpl; [reflexivity|]. now rewrite H. Qed.

(** [async_update] never removes a timer, and adds one exactly when the
    cycle ends without an exception. *)
Lemma async_update_listeners env h :
  listeners (hass_after (async_update env h)) =
  match outcome (async_update env h) with
  | Ret _ => S (listeners h)
  | Exc _ => listeners h
  end.
Proof.
  unfold async_update. destruct (data h !! DOMAIN) as [self|]; [|reflexivity].
  destruct (value (timeout (_check_urls env) self)); reflexivity.
Qed.

(** The monitor in [hass.data] is the object the cycle of [async_update]
    works on. *)
Lemma async_update_data env h d :
  data h !! DOMAIN = Some d ->
  data (hass_after (async_update env h)) !! DOMAIN = Some (store (_check_urls env d)) /\
  observed (async_update env h) = seen (_check_urls env d).
Proof.
  intros Hd. unfold async_update. rewrite Hd.
  destruct (value (timeout (_check_urls env) d)); cbn [hass_after observed data async_track_time_interval];
    rewrite lookup_insert_eq, timeout_store, timeout_seen; auto.
Qed.

Lemma startup_data h ns us first :
  exists r, startup h (config_of ns us) first = Ret r /\
            data (hass_after r) !! DOMAIN = Some (after [first] (__init__ ns us)).
Proof.
  unfold startup. rewrite async_setup_config_of. eexists. split; [reflexivity|].
  apply async_update_data. cbn [data]. apply lookup_insert_eq.
Qed.

(** C1 fails on the code when the timeout hits the cycle started by
    [async_setup].  One URL whose first request stalls until the
    cycle-level timeout fires: [async_update] ends with the timeout error
    before it reaches [async_track_time_interval], no timer is registered,
    and whatever timer firings one asks for, no further cycle runs. *)
Theorem first_cycle_timeout_leaves_no_schedule :
  let stall := fun _ : nat => mkProbe (Raised CancelledError) (mkDatetime 2024 5 17 9 3 0 0) in
  exists r,
    startup (mkHass ∅ 0) (config_of ["A"] ["https://slow.example"]) stall = Ret r /\
    outcome r = Exc TimeoutError /\
    listeners (hass_after r) = 0 /\
    forall firings, run firings (hass_after r) = (hass_after r, []).
Proof.
  intros stall. unfold startup. rewrite async_setup_config_of.
  eexists. split; [reflexivity|].
  unfold async_update. cbn [data listeners]. rewrite lookup_insert_eq.
  split; [reflexivity|]. split; [reflexivity|].
  intros firings. apply run_without_listener. reflexivity.
Qed.

(** C3 fails on the code in its last part, by the same defect.  Three
    URLs, the second of which does not answer; the start-up cycle checks
    the first, and the cycle-level timeout fires while the second request
    is in flight.  The two remaining targets keep exactly what they had,
    as the claim says; but [async_update] has ended before registering
    the timer, so no cycle follows and they are never attempted again. *)
Theorem timed_out_targets_not_attempted_again :
  let t := mkDatetime 2024 5 17 9 3 0 0 in
  let us := ["https://fine.example"; "https://stalls.example"; "https://last.example"] in
  let first := fun j : nat =>
    match j with
    | 0 => mkProbe (Responded 200 None) t
    | _ => mkProbe (Raised CancelledError) t
    end in
  exists r d,
    startup (mkHass ∅ 0) (config_of ["A"; "B"; "C"] us) first = Ret r /\
    outcome r = Exc TimeoutError /\
    requests_of (observed r) = [(0, "https://fine.example"); (1, "https://stalls.example")] /\
    data (hass_after r) !! DOMAIN = Some d /\
    (states d !! 0 = Some "Online" /\ last_updated d !! 0 = Some t) /\
    (states d !! 1 = Some "Unknown" /\ status d !! 1 = Some "" /\
     last_updated d !! 1 = Some datetime_min) /\
    (states d !! 2 = Some "Unknown" /\ status d !! 2 = Some "" /\
     last_updated d !! 2 = Some datetime_min) /\
    listeners (hass_after r) = 0 /\
    forall firings, run firings (hass_after r) = (hass_after r, []).
Proof.
  intros t us first. unfold startup. rewrite async_setup_config_of.
  eexists. eexists. split; [reflexivity|].
  unfold async_update. cbn [data listeners]. rewrite lookup_insert_eq.
  split; [reflexivity|]. split; [reflexivity|].
  split; [cbn [value hass_after data]; apply lookup_insert_eq|].
  split; [split; reflexivity|]. split; [repeat split; reflexivity|].
  split; [repeat split; reflexivity|]. split; [reflexivity|].
  intros firings. apply run_without_listener. reflexivity.
Qed.

(** ** Construction *)

(** C5, as stated, fails: two names and three URLs are accepted, and the
    monitor is created with three slots. *)
Lemma mismatched_lengths_accepted :
  let ns := ["A"; "B"] in
  let us := ["https://a.example"; "https://b.example"; "https://c.example"] in
  length ns <> length us /\
  exists h, async_setup (mkHass ∅ 0) (config_of ns us) = Ret h /\
            data h !! DOMAIN = Some (__init__ ns us) /\
            states (__init__ ns us) = ["Unknown"; "Unknown"; "Unknown"].
Proof.
  cbv zeta. split; [simpl; lia|].
  rewrite async_setup_config_of. eexists. split; [reflexivity|].
  split; [apply lookup_insert_eq | reflexivity].
Qed.

(** C5, amended.  Construction does not compare the two lengths: whenever
    the configuration holds a names list and a urls list, of equal lengths
    or not, setup succeeds and registers a monitor that keeps both lists
    as given and has one slot per URL in each of its three state lists. *)
Theorem setup_ignores_lengths (h : HomeAssistant)
    (config : gmap string (gmap string (list string)))
    (section : gmap string (list string)) (ns us : list string) :
  config !! DOMAIN = Some section ->
  section !! CONF_NAME = Some ns ->
  section !! CONF_URL = Some us ->
  exists h' d,
    async_setup h config = Ret h' /\
    data h' !! DOMAIN = Some d /\
    names d = ns /\ urls d = us /\
    length (states d) = length us /\
    length (status d) = length us /\
    length (last_updated d) = length us.
Proof.
  intros Hc Hn Hu. unfold async_setup. rewrite Hc, Hn, Hu.
  eexists. exists (__init__ ns us). split; [reflexivity|].
  split; [apply lookup_insert_eq|].
  unfold __init__. simpl. rewrite !length_replicate. auto.
Qed.

Lemma setup_ignores_lengths_witness :
  exists h' d,
    async_setup (mkHass ∅ 0) (config_of ["A"; "B"] ["https://a.example"]) = Ret h' /\
    data h' !! DOMAIN = Some d /\
    names d = ["A"; "B"] /\ urls d = ["https://a.example"] /\
    length (states d) = 1 /\ length (status d) = 1 /\ length (last_updated d) = 1.
Proof.
  apply (setup_ignores_lengths (mkHass ∅ 0) (config_of ["A"; "B"] ["https://a.example"])
           (<[CONF_URL := ["https://a.example"]]> {[ CONF_NAME := ["A"; "B"] ]})).
  - apply lookup_singleton_eq.
  - rewrite lookup_insert_ne by discriminate. apply lookup_singleton_eq.
  - apply lookup_insert_eq.
Defined.

(** ** The configured names *)

Lemma wf_with_names ns d : wf d -> wf (with_names ns d).
Proof. unfold wf, with_names. simpl. tauto. Qed.

(** A probe does to a monitor with other names what it does to the
    monitor, names apart. *)
Lemma check_one_with_names ns ev i url d :
  wf d -> i < length (urls d) ->
  check_one ev i url (with_names ns d) = effect_with_names ns (check_one ev i url d).
Proof.
  intros Hwf Hi.
  rewrite (check_one_unfold ev i url (with_names ns d)) by (auto using wf_with_names).
  rewrite (check_one_unfold ev i url d) by assumption.
  unfold effect_with_names, on_response.
  destruct (request ev) as [code [e|]|e]; simpl;
    try destruct (caught e); simpl; try destruct (code =? 200)%Z; reflexivity.
Qed.

Lemma loop_with_names ns env l start d :
  wf d -> start + length l = length (urls d) ->
  loop env start l (with_names ns d) = effect_with_names ns (loop env start l d).
Proof.
  revert start d. induction l as [|url l IH]; intros start d Hwf Hlen; simpl in Hlen;
    [reflexivity|].
  assert (Hs : start < length (urls d)) by lia.
  rewrite (loop_cons env start url l (with_names ns d)) by (auto using wf_with_names).
  rewrite (loop_cons env start url l d) by assumption.
  rewrite check_one_with_names by assumption.
  destruct (check_one_static (env start) start url d Hwf Hs) as (Hwf1 & Hu & _).
  destruct (escaping (env start)); cbv zeta; [reflexivity|].
  cbn [store seen effect_with_names].
  change (with_names ns (store (check_one (env start) start url d)))
    with (store (effect_with_names ns (check_one (env start) start url d))) at 1.
  cbn [store effect_with_names].
  rewrite IH by (auto; rewrite Hu; lia).
  unfold effect_with_names. cbn [seen store value]. now rewrite map_app.
Qed.

Lemma after_with_names ns envs d :
  wf d -> after envs (with_names ns d) = with_names ns (after envs d).
Proof.
  revert d. induction envs as [|env envs IH]; intros d Hwf; [reflexivity|].
  change (after (env :: envs) (with_names ns d))
    with (after envs (store (_check_urls env (with_names ns d)))).
  change (after (env :: envs) d) with (after envs (store (_check_urls env d))).
  unfold _check_urls at 1. cbn [urls with_names].
  rewrite loop_with_names by auto. cbn [store effect_with_names].
  apply IH. now apply check_urls_wf.
Qed.

(** C9.  The names list is stored by the constructor and used by nothing
    that is ever read.  Construct the monitor with one names list or with
    another and let the same cycles run on it: the names are still the
    list given, the display name of a sensor is "URL Monitor " followed by
    its index plus one, and name, state, icon and attributes of every
    sensor are the same in both monitors. *)
Theorem names_unused (ns ns' us : list string) (envs : list (nat -> probe)) (idx : Z) :
  let d := after envs (__init__ ns us) in
  let d' := after envs (__init__ ns' us) in
  names (__init__ ns us) = ns /\ names d = ns /\
  name (mkSensor d idx) = "URL Monitor " +:+ pretty (idx + 1)%Z /\
  map name (sensors d) =
    map (fun i => "URL Monitor " +:+ pretty (Z.of_nat i + 1)%Z) (seq 0 (length us)) /\
  name (mkSensor d' idx) = name (mkSensor d idx) /\
  state (mkSensor d' idx) = state (mkSensor d idx) /\
  icon (mkSensor d' idx) = icon (mkSensor d idx) /\
  extra_state_attributes (mkSensor d' idx) = extra_state_attributes (mkSensor d idx).
Proof.
  intros d d'.
  assert (Hd' : d' = with_names ns' d).
  { unfold d', d. rewrite <- after_with_names by apply wf_init. reflexivity. }
  assert (Hd : d = with_names ns d).
  { unfold d. rewrite <- after_with_names by apply wf_init. reflexivity. }
  assert (Hu : urls d = us).
  { unfold d. rewrite after_urls by apply wf_init. reflexivity. }
  split; [reflexivity|]. split; [now rewrite Hd|]. split; [reflexivity|].
  split; [unfold sensors; rewrite map_map, Hu; reflexivity|].
  rewrite Hd'. repeat split.
Qed.

(** ** Importing the module *)

(** C10.  Executing the module body stops at the assignment to
    [CONFIG_SCHEMA] with [NameError] for [vol]: neither [vol] nor [cv] is
    bound by any statement of the module or predefined, and at that point
    none of [CONFIG_SCHEMA], [async_setup], [URLMonitor] and
    [URLMonitorData] is bound, so neither setup nor monitoring can run. *)
Theorem module_import_fails :
  snd (load module_body ∅) = Some (NameError "vol") /\
  Forall (fun s => ("vol" ∉ binds s) /\ ("cv" ∉ binds s)) module_body /\
  ("vol" ∉ predefined) /\ ("cv" ∉ predefined) /\
  Forall (fun x => x ∉ fst (load module_body ∅))
         ["CONFIG_SCHEMA"; "async_setup"; "URLMonitor"; "URLMonitorData"].
Proof.
  split; [vm_compute; reflexivity|].
  split.
  { repeat (apply Forall_cons; split;
            [split; intros H; apply list_elem_of_In in H; simpl in H;
             repeat (destruct H as [H|H]; [discriminate|]); exact H|]).
    apply Forall_nil. exact I. }
  split; [apply (bool_decide_unpack _); vm_compute; exact I|].
  split; [apply (bool_decide_unpack _); vm_compute; exact I|].
  repeat (apply Forall_cons; split; [apply (bool_decide_unpack _); vm_compute; exact I|]).
  apply Forall_nil. exact I.
Qed.

(** * Further properties of the code *)

(** ** What a probe writes *)

Lemma check_one_slot ev i url d :
  wf d -> i < length (urls d) -> escaping ev = None ->
  let r := check_one ev i url d in
  states (store r) !! i = Some (fst (verdict ev)) /\
  status (store r) !! i = Some (snd (verdict ev)) /\
  last_updated (store r) !! i = Some (now ev).
Proof.
  intros Hwf Hi He. pose proof Hwf as (Hs & Hx & Hl).
  rewrite check_one_unfold by assumption. unfold escaping, verdict in *.
  destruct (request ev) as [code [e|]|e]; simpl;
    try (destruct (caught e) as [msg|]; [|discriminate]); simpl;
    unfold on_response; try destruct (code =? 200)%Z; simpl;
    repeat split; apply list_lookup_insert_eq; rewrite ?length_insert; lia.
Qed.

(** Every write of a probe is a classification with "Online" or "Offline"
    or a time stamp, so a property that those keep is kept by the probe,
    at its suspensions and at its end. *)
Lemma check_one_writes (I : URLMonitorData -> Prop) ev i url d :
  (forall d' st sx, I d' -> st = "Online" \/ st = "Offline" -> I (classify d' i st sx)) ->
  (forall d' t, I d' -> I (stamp d' i t)) ->
  wf d -> i < length (urls d) -> I d ->
  I (store (check_one ev i url d)) /\
  Forall (fun o => I (snd o)) (seen (check_one ev i url d)).
Proof.
  intros Hc Hst Hwf Hi HI.
  assert (Hresp : forall code, I (on_response d i code)).
  { intros code. unfold on_response. destruct (code =? 200)%Z; apply Hc; auto. }
  split.
  - rewrite check_one_unfold by assumption.
    destruct (request ev) as [code [e|]|e]; simpl;
      try destruct (caught e); simpl; auto.
  - eapply Forall_impl; [apply check_one_seen; assumption|].
    intros o [->|[code ->]]; auto.
Qed.

(** ** Cycles that run to the end *)

Lemma loop_slot env l start d i :
  wf d -> start + length l = length (urls d) ->
  start <= i < length (urls d) ->
  (forall j, start <= j <= i -> escaping (env j) = None) ->
  let r := loop env start l d in
  states (store r) !! i = Some (fst (verdict (env i))) /\
  status (store r) !! i = Some (snd (verdict (env i))) /\
  last_updated (store r) !! i = Some (now (env i)).
Proof.
  revert start d. induction l as [|url l IH]; intros start d Hwf Hlen Hi Hok;
    simpl in Hlen; [lia|].
  assert (Hs : start < length (urls d)) by lia.
  rewrite loop_cons by auto.
  destruct (check_one_static (env start) start url d Hwf Hs) as (Hwf1 & Hu & _).
  rewrite (Hok start) by lia. cbn [store].
  destruct (decide (start = i)) as [->|Hne].
  - destruct (loop_frame_below env l (S i) (store (check_one (env i) i url d)) i)
      as (-> & -> & ->); auto; [rewrite Hu; lia|].
    apply check_one_slot; [assumption | assumption | apply Hok; lia].
  - apply IH; auto.
    + rewrite Hu. lia.
    + rewrite Hu. lia.
    + intros j Hj. apply Hok. lia.
Qed.

Lemma loop_value_complete env l start d :
  wf d -> start + length l = length (urls d) ->
  (forall j, start <= j < length (urls d) -> escaping (env j) = None) ->
  value (loop env start l d) = Ret tt.
Proof.
  revert start d. induction l as [|url l IH]; intros start d Hwf Hlen Hok;
    simpl in Hlen; [reflexivity|].
  assert (Hs : start < length (urls d)) by lia.
  rewrite loop_cons by auto.
  destruct (check_one_static (env start) start url d Hwf Hs) as (Hwf1 & Hu & _).
  rewrite (Hok start) by lia. cbn [value].
  apply IH; auto.
  - rewrite Hu. lia.
  - rewrite Hu. intros j Hj. apply Hok. lia.
Qed.

Lemma loop_value_exc env l start d e :
  wf d -> start + length l = length (urls d) ->
  value (loop env start l d) = Exc e ->
  exists k, start <= k < length (urls d) /\ escaping (env k) = Some e /\
            forall j, start <= j < k -> escaping (env j) = None.
Proof.
  revert start d. induction l as [|url l IH]; intros start d Hwf Hlen Hv;
    simpl in Hlen; [discriminate|].
  assert (Hs : start < length (urls d)) by lia.
  rewrite loop_cons in Hv by auto.
  destruct (check_one_static (env start) start url d Hwf Hs) as (Hwf1 & Hu & _).
  destruct (escaping (env start)) as [e0|] eqn:E; cbn [value] in Hv.
  - injection Hv as ->. exists start. split; [lia|]. split; [assumption|]. intros j Hj. lia.
  - destruct (IH (S start) _ Hwf1) with (2 := Hv) as (k & Hk & He & Hbefore).
    { rewrite Hu. lia. }
    rewrite Hu in Hk. exists k. split; [lia|]. split; [assumption|].
    intros j Hj. destruct (decide (j = start)) as [->|]; [assumption|]. apply Hbefore. lia.
Qed.

(** X1.  A cycle in which every probe ends in a response, a network error
    or a request timeout runs to the end without an exception: every URL
    is requested, and every target ends up "Online" or "Offline" with the
    time read for its probe as last_updated. *)
Theorem completed_cycle_classifies (env : nat -> probe) (d : URLMonitorData) :
  wf d ->
  (forall j, j < length (urls d) -> escaping (env j) = None) ->
  let r := _check_urls env d in
  value r = Ret tt /\
  forall i, i < length (urls d) ->
    attempted r i = true /\
    (states (store r) !! i = Some "Online" \/ states (store r) !! i = Some "Offline") /\
    last_updated (store r) !! i = Some (now (env i)).
Proof.
  intros Hwf Hok. cbv zeta. split.
  - apply loop_value_complete; auto. intros j Hj. apply Hok. lia.
  - intros i Hi. split; [|split].
    + apply loop_attempted; auto; [lia|]. intros j Hj. apply Hok. lia.
    + destruct (loop_slot env (urls d) 0 d i Hwf eq_refl) as (Hs & _ & _); [lia| |].
      { intros j Hj. apply Hok. lia. }
      unfold _check_urls. rewrite Hs. unfold verdict.
      destruct (request (env i)) as [code [e|]|e]; simpl; auto.
      destruct (code =? 200)%Z; simpl; auto.
    + destruct (loop_slot env (urls d) 0 d i Hwf eq_refl) as (_ & _ & Hl); [lia| |assumption].
      intros j Hj. apply Hok. lia.
Qed.

Lemma completed_cycle_classifies_witness :
  let t := mkDatetime 2024 5 17 9 3 0 0 in
  let env := fun j : nat =>
    match j with
    | 0 => mkProbe (Responded 200 None) t
    | _ => mkProbe (Raised TimeoutError) t
    end in
  let r := _check_urls env (__init__ ["A"; "B"] ["https://a.example"; "https://b.example"]) in
  value r = Ret tt /\
  attempted r 1 = true /\
  (states (store r) !! 1 = Some "Online" \/ states (store r) !! 1 = Some "Offline") /\
  last_updated (store r) !! 1 = Some t.
Proof.
  intros t env r.
  destruct (completed_cycle_classifies env
              (__init__ ["A"; "B"] ["https://a.example"; "https://b.example"])
              (wf_init _ _)) as [Hv Hall].
  { intros [|[|j]] Hj; reflexivity. }
  split; [exact Hv|]. apply Hall. simpl. lia.
Defined.

(** X2.  A cycle that runs to the end overwrites every slot: the states,
    status texts and time stamps it leaves depend on what the probes met
    and on the number of URLs only, not on what was stored before. *)
Theorem completed_cycle_supersedes (env : nat -> probe) (d d' : URLMonitorData) :
  wf d -> wf d' -> length (urls d) = length (urls d') ->
  (forall j, j < length (urls d) -> escaping (env j) = None) ->
  states (store (_check_urls env d)) = states (store (_check_urls env d')) /\
  status (store (_check_urls env d)) = status (store (_check_urls env d')) /\
  last_updated (store (_check_urls env d)) = last_updated (store (_check_urls env d')).
Proof.
  intros Hwf Hwf' Hlen Hok.
  destruct (check_urls_wf env d Hwf) as [(S1 & X1 & L1) _].
  destruct (check_urls_wf env d' Hwf') as [(S2 & X2 & L2) _].
  rewrite check_urls_urls in S1, X1, L1 by assumption.
  rewrite check_urls_urls in S2, X2, L2 by assumption.
  assert (Hslot : forall i, i < length (urls d) ->
            states (store (_check_urls env d)) !! i = states (store (_check_urls env d')) !! i /\
            status (store (_check_urls env d)) !! i = status (store (_check_urls env d')) !! i /\
            last_updated (store (_check_urls env d)) !! i =
              last_updated (store (_check_urls env d')) !! i).
  { intros i Hi.
    destruct (loop_slot env (urls d) 0 d i Hwf eq_refl) as (A1 & A2 & A3); [lia| |].
    { intros j Hj. apply Hok. lia. }
    destruct (loop_slot env (urls d') 0 d' i Hwf' eq_refl) as (B1 & B2 & B3); [lia| |].
    { intros j Hj. apply Hok. lia. }
    unfold _check_urls. cbv zeta in *. repeat split; congruence. }
  repeat split; apply list_eq; intros i;
    (destruct (decide (i < length (urls d))) as [Hi|Hi];
     [now apply Hslot
     | rewrite !(proj2 (lookup_ge_None _ _)) by lia; reflexivity]).
Qed.

Lemma completed_cycle_supersedes_witness :
  let t := mkDatetime 2024 5 17 9 3 0 0 in
  let env := fun _ : nat => mkProbe (Responded 503 None) t in
  let d := __init__ ["A"] ["https://a.example"] in
  let d' := store (_check_urls (fun _ : nat => mkProbe (Responded 200 None) datetime_min) d) in
  states (store (_check_urls env d)) = states (store (_check_urls env d')) /\
  status (store (_check_urls env d)) = status (store (_check_urls env d')) /\
  last_updated (store (_check_urls env d)) = last_updated (store (_check_urls env d')).
Proof.
  intros t env d d'.
  apply (completed_cycle_supersedes env d d').
  - apply wf_init.
  - apply check_urls_wf, wf_init.
  - reflexivity.
  - intros j _. reflexivity.
Defined.

(** X3.  What a probe has recorded stays recorded whatever happens later
    in the cycle: if no probe up to slot [i] lets an exception out, the
    target in slot [i] is "Online" or "Offline" with the time read for its
    probe, even when a later probe ends the cycle with an exception. *)
Theorem checked_targets_stay_recorded (env : nat -> probe) (d : URLMonitorData) (i : nat) :
  wf d -> i < length (urls d) ->
  (forall j, j <= i -> escaping (env j) = None) ->
  let r := _check_urls env d in
  (states (store r) !! i = Some "Online" \/ states (store r) !! i = Some "Offline") /\
  last_updated (store r) !! i = Some (now (env i)).
Proof.
  intros Hwf Hi Hok.
  destruct (loop_slot env (urls d) 0 d i Hwf eq_refl) as (Hs & _ & Hl); [lia| |].
  { intros j Hj. apply Hok. lia. }
  cbv zeta. unfold _check_urls. split; [|assumption].
  rewrite Hs. unfold verdict.
  destruct (request (env i)) as [code [e|]|e]; simpl; auto.
  destruct (code =? 200)%Z; simpl; auto.
Qed.

Lemma checked_targets_stay_recorded_witness :
  let t := mkDatetime 2024 5 17 9 3 0 0 in
  let env := fun j : nat =>
    match j with
    | 0 => mkProbe (Responded 404 None) t
    | _ => mkProbe (Raised CancelledError) t
    end in
  let r := _check_urls env (__init__ ["A"; "B"] ["https://a.example"; "https://b.example"]) in
  value r = Exc CancelledError /\
  (states (store r) !! 0 = Some "Online" \/ states (store r) !! 0 = Some "Offline") /\
  last_updated (store r) !! 0 = Some t.
Proof.
  intros t env r. split; [reflexivity|].
  apply (checked_targets_stay_recorded env
           (__init__ ["A"; "B"] ["https://a.example"; "https://b.example"]) 0).
  - apply wf_init.
  - simpl. lia.
  - intros [|j] Hj; [reflexivity | lia].
Defined.

(** ** The requests of a cycle *)

Lemma requests_of_app s1 s2 : requests_of (s1 ++ s2) = requests_of s1 ++ requests_of s2.
Proof. unfold requests_of. apply flat_map_app. Qed.

Lemma check_one_requests ev i url d :
  wf d -> i < length (urls d) ->
  requests_of (seen (check_one ev i url d)) = [(i, url)].
Proof.
  intros Hwf Hi.
  destruct (check_one_seen_get ev i url d Hwf Hi) as (tl & -> & Htl).
  unfold requests_of. simpl. f_equal.
  induction Htl as [|[p d0] tl Hp _ IH]; simpl; [reflexivity|].
  simpl in Hp. subst p. exact IH.
Qed.

Lemma loop_requests_complete env l start d :
  wf d -> start + length l = length (urls d) ->
  (forall j, start <= j < length (urls d) -> escaping (env j) = None) ->
  requests_of (seen (loop env start l d)) = enumerate start l.
Proof.
  revert start d. induction l as [|url l IH]; intros start d Hwf Hlen Hok;
    simpl in Hlen; [reflexivity|].
  assert (Hs : start < length (urls d)) by lia.
  rewrite loop_cons by auto.
  destruct (check_one_static (env start) start url d Hwf Hs) as (Hwf1 & Hu & _).
  rewrite (Hok start) by lia. cbn [seen].
  rewrite requests_of_app, check_one_requests by auto. simpl. f_equal.
  apply IH; auto.
  - rewrite Hu. lia.
  - rewrite Hu. intros j Hj. apply Hok. lia.
Qed.

Lemma loop_requests_abort env l start d k e :
  wf d -> start + length l = length (urls d) ->
  start <= k < length (urls d) ->
  (forall j, start <= j < k -> escaping (env j) = None) ->
  escaping (env k) = Some e ->
  requests_of (seen (loop env start l d)) = take (S k - start) (enumerate start l).
Proof.
  revert start d. induction l as [|url l IH]; intros start d Hwf Hlen Hk Hbefore He;
    simpl in Hlen; [lia|].
  assert (Hs : start < length (urls d)) by lia.
  rewrite loop_cons by auto.
  destruct (check_one_static (env start) start url d Hwf Hs) as (Hwf1 & Hu & _).
  destruct (decide (start = k)) as [->|Hne].
  - rewrite He. cbn [seen]. rewrite check_one_requests by auto.
    replace (S k - k) with 1 by lia. reflexivity.
  - rewrite (Hbefore start) by lia. cbn [seen].
    rewrite requests_of_app, check_one_requests by auto.
    replace (S k - start) with (S (S k - S start)) by lia. simpl. f_equal.
    apply IH; auto.
    + rewrite Hu. lia.
    + rewrite Hu. lia.
    + intros j Hj. apply Hbefore. lia.
Qed.

(** X4.  A cycle requests the configured URLs in list order, each at most
    once and never twice: all of them when no probe lets an exception
    out, and those up to and including slot [k] when the probe of slot
    [k] is the first to let one out. *)
Theorem requests_in_order (env : nat -> probe) (d : URLMonitorData) :
  wf d ->
  ((forall j, j < length (urls d) -> escaping (env j) = None) ->
   requests (_check_urls env d) = enumerate 0 (urls d)) /\
  (forall k e, k < length (urls d) ->
     (forall j, j < k -> escaping (env j) = None) ->
     escaping (env k) = Some e ->
     requests (_check_urls env d) = take (S k) (enumerate 0 (urls d))).
Proof.
  intros Hwf. unfold requests, _check_urls. split.
  - intros Hok. apply loop_requests_complete; auto. intros j Hj. apply Hok. lia.
  - intros k e Hk Hbefore He.
    rewrite (loop_requests_abort env (urls d) 0 d k e) by
      (auto; try lia; intros j Hj; apply Hbefore; lia).
    now replace (S k - 0) with (S k) by lia.
Qed.

Lemma requests_in_order_witness :
  let t := mkDatetime 2024 5 17 9 3 0 0 in
  let d := __init__ ["A"; "B"; "C"]
             ["https://a.example"; "https://b.example"; "https://c.example"] in
  let failing := fun _ : nat => mkProbe (Raised (ClientError "Cannot connect to host")) t in
  let stalling := fun j : nat =>
    match j with
    | 1 => mkProbe (Raised CancelledError) t
    | _ => mkProbe (Responded 200 None) t
    end in
  requests (_check_urls failing d) =
    [(0, "https://a.example"); (1, "https://b.example"); (2, "https://c.example")] /\
  requests (_check_urls stalling d) = [(0, "https://a.example"); (1, "https://b.example")].
Proof.
  intros t d failing stalling.
  split.
  - apply (proj1 (requests_in_order failing d (wf_init _ _))).
    intros j _. reflexivity.
  - apply (proj2 (requests_in_order stalling d (wf_init _ _)) 1 CancelledError).
    + simpl. lia.
    + intros [|j] Hj; [reflexivity | lia].
    + reflexivity.
Defined.

(** ** Exceptions of a cycle *)

(** X5.  The only exceptions that leave a cycle are those a request or a
    release raised and no [except] clause caught: the writes of the cycle
    never raise [IndexError], and no [aiohttp.ClientError] and no
    [asyncio.TimeoutError] ever leaves [_check_urls]. *)
Theorem cycle_exception_comes_from_probe (env : nat -> probe) (d : URLMonitorData) (e : exn) :
  wf d ->
  value (_check_urls env d) = Exc e ->
  (exists k, k < length (urls d) /\
             (request (env k) = Raised e \/
              exists code, request (env k) = Responded code (Some e)) /\
             forall j, j < k -> escaping (env j) = None) /\
  (forall msg, e <> ClientError msg) /\ e <> TimeoutError.
Proof.
  intros Hwf Hv.
  destruct (loop_value_exc env (urls d) 0 d e Hwf eq_refl Hv) as (k & Hk & He & Hbefore).
  assert (Hreq : (request (env k) = Raised e \/
                  exists code, request (env k) = Responded code (Some e)) /\
                 caught e = None).
  { unfold escaping in He.
    destruct (request (env k)) as [code [e'|]|e']; try discriminate;
      destruct (caught e') eqn:Hc; try discriminate; injection He as <-; eauto. }
  destruct Hreq as [Hreq Hc]. split; [|split].
  - exists k. split; [lia|]. split; [assumption|]. intros j Hj. apply Hbefore. lia.
  - intros msg ->. discriminate.
  - intros ->. discriminate.
Qed.

Lemma cycle_exception_comes_from_probe_witness :
  let t := mkDatetime 2024 5 17 9 3 0 0 in
  let env := fun j : nat =>
    match j with
    | 0 => mkProbe (Raised TimeoutError) t
    | _ => mkProbe (Raised (OtherError "ValueError")) t
    end in
  exists k, k < 2 /\
            (request (env k) = Raised (OtherError "ValueError") \/
             exists code, request (env k) = Responded code (Some (OtherError "ValueError"))) /\
            forall j, j < k -> escaping (env j) = None.
Proof.
  intros t env.
  exact (proj1 (cycle_exception_comes_from_probe env
                  (__init__ ["A"; "B"] ["https://a.example"; "https://b.example"])
                  (OtherError "ValueError") (wf_init _ _) eq_refl)).
Defined.

(** X6.  A cycle never resizes anything and never touches the
    configuration: at each of its suspensions and at its end the three
    state lists still have one slot per URL, and the URLs and the names
    are those it started with. *)
Theorem cycle_keeps_shape (env : nat -> probe) (d d' : URLMonitorData) :
  wf d ->
  d' = store (_check_urls env d) \/ d' ∈ map snd (seen (_check_urls env d)) ->
  wf d' /\ urls d' = urls d /\ names d' = names d.
Proof.
  intros Hwf Hd'.
  pose (I := fun d0 => wf d0 /\ urls d0 = urls d /\ names d0 = names d).
  destruct (check_urls_invariant env I) with (d := d) as [Hstore Hseen].
  - unfold I. tauto.
  - intros i url d0 (Hwf0 & Hu0 & Hn0) Hi.
    apply check_one_writes; auto.
    + intros d1 st sx (H1 & H2 & H3) _. split; [now apply wf_classify | now split].
    + intros d1 t (H1 & H2 & H3). split; [now apply wf_stamp | now split].
    + unfold I. auto.
  - unfold I. auto.
  - destruct Hd' as [->|Hin]; [exact Hstore|].
    apply list_elem_of_fmap in Hin as (o & -> & Ho).
    rewrite Forall_forall in Hseen. now apply Hseen.
Qed.

Lemma cycle_keeps_shape_witness :
  let t := mkDatetime 2024 5 17 9 3 0 0 in
  let env := fun _ : nat => mkProbe (Responded 200 (Some CancelledError)) t in
  let d := __init__ ["A"; "B"] ["https://a.example"; "https://b.example"] in
  wf (store (_check_urls env d)) /\
  urls (store (_check_urls env d)) = ["https://a.example"; "https://b.example"] /\
  names (store (_check_urls env d)) = ["A"; "B"].
Proof.
  intros t env d.
  exact (cycle_keeps_shape env d (store (_check_urls env d)) (wf_init _ _) (or_introl eq_refl)).
Defined.

(** ** A timeout while a response is released *)

Lemma loop_abort_release env l start d k code e :
  wf d -> start + length l = length (urls d) ->
  start <= k < length (urls d) ->
  (forall j, start <= j < k -> escaping (env j) = None) ->
  request (env k) = Responded code (Some e) -> caught e = None ->
  let r := loop env start l d in
  states (store r) !! k = states (on_response d k code) !! k /\
  status (store r) !! k = status (on_response d k code) !! k.
Proof.
  revert start d. induction l as [|url l IH]; intros start d Hwf Hlen Hk Hbefore Hreq Hc;
    simpl in Hlen; [lia|].
  assert (Hs : start < length (urls d)) by lia.
  rewrite loop_cons by auto.
  destruct (check_one_static (env start) start url d Hwf Hs) as (Hwf1 & Hu & _).
  assert (He : escaping (env k) = Some e).
  { unfold escaping. now rewrite Hreq, Hc. }
  destruct (decide (start = k)) as [->|Hne].
  - rewrite He. cbn [store]. rewrite check_one_unfold by assumption.
    rewrite Hreq, Hc. simpl. auto.
  - rewrite (Hbefore start) by lia. cbn [store].
    set (d1 := store (check_one (env start) start url d)) in *.
    destruct (IH (S start) d1) as [A1 A2]; auto.
    { rewrite Hu. lia. } { rewrite Hu. lia. } { intros j Hj. apply Hbefore. lia. }
    destruct (check_one_frame (env start) start url d k Hwf Hs) as (F1 & F2 & _); [lia|].
    fold d1 in F1, F2. pose proof Hwf as (Ls & Lx & _). pose proof Hwf1 as (Ls1 & Lx1 & _).
    rewrite A1, A2. unfold on_response.
    destruct (code =? 200)%Z; simpl;
      rewrite !list_lookup_insert_eq by (rewrite ?Ls, ?Lx, ?Ls1, ?Lx1, ?Hu; lia); auto.
Qed.

(** X7.  The three fields of a slot are not written in one step.  If the
    cycle-level timeout fires while the response of the target in slot
    [k] is being released (after the classification, before the time
    stamp), the cycle ends with the timeout error and leaves that target
    with its new state and status but its old last_updated. *)
Theorem timeout_during_release_tears_record (env : nat -> probe) (d : URLMonitorData)
    (k : nat) (code : Z) :
  wf d -> k < length (urls d) ->
  (forall j, j < k -> escaping (env j) = None) ->
  request (env k) = Responded code (Some CancelledError) ->
  let r := _check_urls env d in
  value (timeout (_check_urls env) d) = Exc TimeoutError /\
  states (store r) !! k = Some (if (code =? 200)%Z then "Online" else "Offline") /\
  status (store r) !! k = Some (if (code =? 200)%Z then "OK" else "HTTP " +:+ pretty code) /\
  last_updated (store r) !! k = last_updated d !! k.
Proof.
  intros Hwf Hk Hbefore Hreq. pose proof Hwf as (Ls & Lx & _).
  assert (He : escaping (env k) = Some CancelledError).
  { unfold escaping. now rewrite Hreq. }
  destruct (loop_abort env (urls d) 0 d k CancelledError Hwf eq_refl) as (Hv & _ & Hl & _);
    [lia | intros j Hj; apply Hbefore; lia | assumption |].
  destruct (loop_abort_release env (urls d) 0 d k code CancelledError Hwf eq_refl)
    as [Hs Hx]; [lia | intros j Hj; apply Hbefore; lia | assumption | reflexivity |].
  cbv zeta. unfold _check_urls at 2 3 4. split; [|split; [|split]].
  - rewrite timeout_value. unfold _check_urls. now rewrite Hv.
  - rewrite Hs. unfold on_response.
    destruct (code =? 200)%Z; simpl; apply list_lookup_insert_eq; lia.
  - rewrite Hx. unfold on_response.
    destruct (code =? 200)%Z; simpl; apply list_lookup_insert_eq; lia.
  - assumption.
Qed.

Lemma timeout_during_release_tears_record_witness :
  let t0 := mkDatetime 2024 5 17 9 3 0 0 in
  let t1 := mkDatetime 2024 5 17 10 3 0 0 in
  let d := store (_check_urls (fun _ : nat => mkProbe (Raised TimeoutError) t0)
                    (__init__ ["A"] ["https://a.example"])) in
  let env := fun _ : nat => mkProbe (Responded 200 (Some CancelledError)) t1 in
  let r := _check_urls env d in
  last_updated d !! 0 = Some t0 /\
  value (timeout (_check_urls env) d) = Exc TimeoutError /\
  states (store r) !! 0 = Some "Online" /\
  status (store r) !! 0 = Some "OK" /\
  last_updated (store r) !! 0 = Some t0.
Proof.
  intros t0 t1 d env r. split; [reflexivity|].
  apply (timeout_during_release_tears_record env d 0 200).
  - apply check_urls_wf, wf_init.
  - simpl. lia.
  - intros j Hj. lia.
  - reflexivity.
Defined.

(** ** Timers *)



(** ** The cycle-level timeout *)

(** X9.  When the cycle-level timeout fires during the probe of the
    target in slot [k], whether its request is in flight or its response
    is being released, the cycle ends with the timeout error and every
    target after it keeps exactly its state, status and last_updated.
    The target in slot [k] keeps its last_updated, and keeps its state and
    status too when the timeout hit its request. *)
Theorem cycle_timeout_frame (env : nat -> probe) (d : URLMonitorData) (k : nat) :
  wf d -> k < length (urls d) ->
  (forall j, j < k -> escaping (env j) = None) ->
  request (env k) = Raised CancelledError \/
  (exists code, request (env k) = Responded code (Some CancelledError)) ->
  let r := _check_urls env d in
  value (timeout (_check_urls env) d) = Exc TimeoutError /\
  (forall i, k < i ->
     states (store r) !! i = states d !! i /\
     status (store r) !! i = status d !! i /\
     last_updated (store r) !! i = last_updated d !! i) /\
  last_updated (store r) !! k = last_updated d !! k /\
  (request (env k) = Raised CancelledError ->
     states (store r) !! k = states d !! k /\
     status (store r) !! k = status d !! k).
Proof.
  intros Hwf Hk Hbefore Hreq.
  assert (He : escaping (env k) = Some CancelledError).
  { unfold escaping. destruct Hreq as [-> | [code ->]]; reflexivity. }
  destruct (loop_abort env (urls d) 0 d k CancelledError Hwf eq_refl)
    as (Hv & Habove & Hlk & Hat);
    [lia | intros j Hj; apply Hbefore; lia | assumption |].
  fold (_check_urls env d) in Hv, Habove, Hlk, Hat.
  cbv zeta. split; [rewrite timeout_value, Hv; reflexivity|].
  split; [assumption|]. split; assumption.
Qed.

Lemma cycle_timeout_frame_witness :
  let t := mkDatetime 2024 5 17 9 3 0 0 in
  let d := __init__ ["A"; "B"; "C"]
             ["https://a.example"; "https://b.example"; "https://c.example"] in
  let env := fun j : nat =>
    match j with
    | 0 => mkProbe (Responded 200 None) t
    | _ => mkProbe (Responded 200 (Some CancelledError)) t
    end in
  let r := _check_urls env d in
  value (timeout (_check_urls env) d) = Exc TimeoutError /\
  (states (store r) !! 2 = Some "Unknown" /\
   status (store r) !! 2 = Some "" /\
   last_updated (store r) !! 2 = Some datetime_min) /\
  last_updated (store r) !! 1 = Some datetime_min.
Proof.
  intros t d env r.
  assert (Hk : 1 < length (urls d)) by (simpl; lia).
  assert (Hb : forall j, j < 1 -> escaping (env j) = None).
  { intros [|j] Hj; [reflexivity | lia]. }
  destruct (cycle_timeout_frame env d 1 (wf_init _ _) Hk Hb
              (or_intror (ex_intro _ 200%Z eq_refl))) as (Hv & Habove & Hlk & _).
  split; [exact Hv|]. split; [|exact Hlk].
  apply (Habove 2). lia.
Defined.

(** ** The sensors *)

Lemma sensors_lookup d i :
  i < length (urls d) -> sensors d !! i = Some (mkSensor d (Z.of_nat i)).
Proof.
  intros Hi. unfold sensors.
  change (map ?f ?l) with (f <$> l).
  rewrite list_lookup_fmap, lookup_seq_lt by assumption. reflexivity.
Qed.

Lemma name_index_inj (i j : Z) :
  "URL Monitor " +:+ pretty (i + 1)%Z = "URL Monitor " +:+ pretty (j + 1)%Z -> i = j.
Proof.
  simpl. intros H. repeat injection H as H.
  change (pretty (i + 1)%Z = pretty (j + 1)%Z) in H.
  apply (inj pretty) in H. lia.
Qed.

(** X10.  Sensors are told apart by their names: two sensors with the same
    name have the same index, and the names of the sensors of a monitor
    are pairwise distinct. *)
Theorem sensor_names_distinct (d : URLMonitorData) :
  (forall s1 s2, name s1 = name s2 -> _index s1 = _index s2) /\
  NoDup (map name (sensors d)).
Proof.
  split.
  - intros s1 s2. unfold name. apply name_index_inj.
  - unfold sensors. rewrite map_map. change (map ?f ?l) with (f <$> l).
    apply NoDup_fmap_2_strong; [|apply NoDup_seq].
    intros i j _ _ H. unfold name in H. simpl _index in H.
    apply name_index_inj in H. lia.
Qed.

(** X11.  Right after construction the sensor of every configured URL
    answers: its state is "Unknown", its icon is the link-off one, and its
    attributes are the URL, an empty status and the text of
    [datetime.min] as Last Updated. *)
Theorem sensors_after_construction (ns us : list string) (i : nat) (u : string) :
  us !! i = Some u ->
  exists s,
    sensors (__init__ ns us) !! i = Some s /\
    name s = "URL Monitor " +:+ pretty (Z.of_nat i + 1)%Z /\
    state s = Ret "Unknown" /\
    icon s = Ret "mdi:link-off" /\
    extra_state_attributes s =
      Ret (<["Last Updated" := "0001-01-01T00:00:00"]>
             (<["Status" := ""]> (<["URL" := u]> ∅))).
Proof.
  intros Hu. pose proof (lookup_lt_Some _ _ _ Hu) as Hi.
  exists (mkSensor (__init__ ns us) (Z.of_nat i)).
  assert (Hs : states (__init__ ns us) !! i = Some "Unknown")
    by (simpl; now apply lookup_replicate_2).
  split; [now apply sensors_lookup|]. split; [reflexivity|].
  split; [|split].
  - unfold state. simpl _data. simpl _index. now rewrite getitem_nat, Hs.
  - unfold icon. simpl _data. simpl _index. now rewrite getitem_nat, Hs.
  - change "0001-01-01T00:00:00" with (isoformat datetime_min).
    apply attributes_of_slot; simpl; auto using lookup_replicate_2.
Qed.

Lemma sensors_after_construction_witness :
  exists s,
    sensors (__init__ ["A"; "B"] ["https://a.example"; "https://b.example"]) !! 1 = Some s /\
    name s = "URL Monitor 2" /\
    state s = Ret "Unknown" /\
    icon s = Ret "mdi:link-off" /\
    extra_state_attributes s =
      Ret (<["Last Updated" := "0001-01-01T00:00:00"]>
             (<["Status" := ""]> (<["URL" := "https://b.example"]> ∅))).
Proof.
  exact (sensors_after_construction ["A"; "B"]
           ["https://a.example"; "https://b.example"] 1 "https://b.example" eq_refl).
Defined.

(** ** What holds after any number of cycles *)

Lemma after_invariant (I : URLMonitorData -> Prop) :
  (forall d, I d -> wf d) ->
  (forall ev i url d, I d -> i < length (urls d) ->
     I (store (check_one ev i url d)) /\
     Forall (fun o => I (snd o)) (seen (check_one ev i url d))) ->
  forall envs d, I d -> I (after envs d).
Proof.
  intros Hwf Hstep envs. induction envs as [|env envs IH]; intros d HI; [assumption|].
  change (after (env :: envs) d) with (after envs (store (_check_urls env d))).
  apply IH. apply (check_urls_invariant env I); auto.
Qed.

Lemma known_states_after ns us envs :
  wf (after envs (__init__ ns us)) /\
  Forall known_state (states (after envs (__init__ ns us))).
Proof.
  apply (after_invariant (fun d => wf d /\ Forall known_state (states d))); [tauto| |].
  - intros ev i url d [Hwf Hk] Hi.
    apply (check_one_writes (fun d => wf d /\ Forall known_state (states d))); auto.
    + intros d' st sx [Hwf' Hk'] Hst. split; [now apply wf_classify|].
      unfold classify. simpl. apply Forall_insert; [assumption|].
      unfold known_state. tauto.
    + intros d' t [Hwf' Hk']. split; [now apply wf_stamp | assumption].
  - split; [apply wf_init|]. simpl. apply Forall_replicate. unfold known_state. auto.
Qed.

Lemma sensors_lookup_inv d i s :
  sensors d !! i = Some s -> i < length (urls d) /\ s = mkSensor d (Z.of_nat i).
Proof.
  unfold sensors. change (map ?f ?l) with (f <$> l).
  rewrite list_lookup_fmap. intros H.
  destruct (seq 0 (length (urls d)) !! i) as [j|] eqn:E; [|discriminate].
  apply lookup_seq in E as [-> Hi]. simpl in H. injection H as <-. auto.
Qed.

(** X12.  Whatever cycles have run since construction and however they
    ended, the sensor in position [i] of the monitor answers without an
    exception and shows slot [i]: its name is "URL Monitor i+1", its state
    is the state of slot [i], one of "Unknown", "Online" and "Offline",
    its icon is the link one exactly when that state is "Online", and its
    attributes are the [i]-th configured URL, the status of slot [i] and
    the ISO text of the last_updated of slot [i]. *)
Theorem sensors_always_answer (ns us : list string) (envs : list (nat -> probe))
    (i : nat) (s : URLMonitor) :
  sensors (after envs (__init__ ns us)) !! i = Some s ->
  let d := after envs (__init__ ns us) in
  exists u st x t,
    us !! i = Some u /\ states d !! i = Some st /\
    status d !! i = Some x /\ last_updated d !! i = Some t /\
    name s = "URL Monitor " +:+ pretty (Z.of_nat i + 1)%Z /\
    state s = Ret st /\ known_state st /\
    icon s = Ret (if decide (st = "Online") then "mdi:link" else "mdi:link-off") /\
    extra_state_attributes s =
      Ret (<["Last Updated" := isoformat t]> (<["Status" := x]> (<["URL" := u]> ∅))).
Proof.
  intros Hs d. fold d in Hs.
  destruct (known_states_after ns us envs) as [Hwf Hk]. fold d in Hwf, Hk.
  assert (Hu : urls d = us) by (unfold d; now rewrite after_urls by apply wf_init).
  apply sensors_lookup_inv in Hs as [Hi ->]. pose proof Hwf as (Ls & Lx & Ll).
  destruct (lookup_lt_is_Some_2 (urls d) i) as [u Hiu]; [lia|].
  destruct (lookup_lt_is_Some_2 (states d) i) as [st Hist]; [lia|].
  destruct (lookup_lt_is_Some_2 (status d) i) as [x Hix]; [lia|].
  destruct (lookup_lt_is_Some_2 (last_updated d) i) as [t Hit]; [lia|].
  exists u, st, x, t.
  split; [now rewrite <- Hu|]. split; [assumption|]. split; [assumption|].
  split; [assumption|]. split; [reflexivity|].
  split; [unfold state; simpl _data; simpl _index; now rewrite getitem_nat, Hist|].
  split; [rewrite Forall_forall in Hk; eapply Hk, list_elem_of_lookup_2, Hist|].
  split; [unfold icon; simpl _data; simpl _index; now rewrite getitem_nat, Hist|].
  now apply attributes_of_slot.
Qed.

Lemma sensors_always_answer_witness :
  let t := mkDatetime 2024 5 17 9 3 0 120 in
  let env := fun j : nat =>
    match j with
    | 0 => mkProbe (Responded 200 None) t
    | _ => mkProbe (Responded 503 (Some CancelledError)) t
    end in
  let d := after [env] (__init__ ["A"; "B"] ["https://a.example"; "https://b.example"]) in
  exists u st x t',
    ["https://a.example"; "https://b.example"] !! 1 = Some u /\ states d !! 1 = Some st /\
    status d !! 1 = Some x /\ last_updated d !! 1 = Some t' /\
    name (mkSensor d 1) = "URL Monitor " +:+ pretty (Z.of_nat 1 + 1)%Z /\
    state (mkSensor d 1) = Ret st /\ known_state st /\
    icon (mkSensor d 1) = Ret (if decide (st = "Online") then "mdi:link" else "mdi:link-off") /\
    extra_state_attributes (mkSensor d 1) =
      Ret (<["Last Updated" := isoformat t']> (<["Status" := x]> (<["URL" := u]> ∅))).
Proof.
  intros t env d.
  exact (sensors_always_answer ["A"; "B"] ["https://a.example"; "https://b.example"]
           [env] 1 (mkSensor d 1) eq_refl).
Defined.

(** X13.  Once a target has been classified its state never reads
    "Unknown" again, whatever cycles follow and however they end. *)
Theorem state_never_back_to_unknown (d : URLMonitorData) (envs : list (nat -> probe))
    (i : nat) :
  wf d ->
  states d !! i <> Some "Unknown" ->
  states (after envs d) !! i <> Some "Unknown".
Proof.
  intros Hwf Hi.
  apply (after_invariant (fun d' => wf d' /\ states d' !! i <> Some "Unknown"));
    [tauto| |tauto].
  intros ev j url d' [Hwf' Hd'] Hj.
  apply (check_one_writes (fun d' => wf d' /\ states d' !! i <> Some "Unknown")); auto.
  - intros d1 st sx [Hwf1 Hd1] Hst. split; [now apply wf_classify|].
    unfold classify. simpl. rewrite list_lookup_insert_Some.
    intros [(_ & -> & _)|[_ H]]; [destruct Hst; discriminate | contradiction].
  - intros d1 t [Hwf1 Hd1]. split; [now apply wf_stamp | assumption].
Qed.

Lemma state_never_back_to_unknown_witness :
  let t := mkDatetime 2024 5 17 9 3 0 0 in
  let d := store (_check_urls (fun _ : nat => mkProbe (Responded 500 None) t)
                    (__init__ ["A"] ["https://a.example"])) in
  let stall := fun _ : nat => mkProbe (Raised CancelledError) t in
  states d !! 0 = Some "Offline" /\
  states (after [stall; stall] d) !! 0 <> Some "Unknown".
Proof.
  intros t d stall. split; [reflexivity|].
  apply (state_never_back_to_unknown d [stall; stall] 0).
  - apply check_urls_wf, wf_init.
  - discriminate.
Defined.

(** ** Indexing *)

Lemma getitem_in_range {A} (l : list A) (i : Z) :
  (- Z.of_nat (length l) <= i < Z.of_nat (length l))%Z ->
  exists x, getitem l i = Ret x /\
            l !! Z.to_nat (if (i <? 0)%Z then i + Z.of_nat (length l) else i)%Z = Some x.
Proof.
  intros Hi. unfold getitem.
  set (j := (if (i <? 0)%Z then (i + Z.of_nat (length l))%Z else i)).
  assert (Hj : (0 <= j < Z.of_nat (length l))%Z).
  { unfold j. destruct (Z.ltb_spec i 0); lia. }
  destruct (Z.leb_spec 0 j); [|lia]. destruct (Z.ltb_spec j (Z.of_nat (length l))); [|lia].
  simpl. destruct (lookup_lt_is_Some_2 l (Z.to_nat j)) as [x Hx]; [lia|].
  rewrite Hx. eauto.
Qed.

Lemma getitem_out_of_range {A} (l : list A) (i : Z) :
  ~ (- Z.of_nat (length l) <= i < Z.of_nat (length l))%Z ->
  getitem l i = Exc IndexError.
Proof.
  intros Hi. unfold getitem.
  destruct (Z.ltb_spec i 0);
    destruct (Z.leb_spec 0 (i + Z.of_nat (length l)));
    destruct (Z.leb_spec 0 i);
    destruct (Z.ltb_spec (i + Z.of_nat (length l)) (Z.of_nat (length l)));
    destruct (Z.ltb_spec i (Z.of_nat (length l))); simpl; try reflexivity; lia.
Qed.

(** X14.  A sensor does not check its index.  With [n] URLs, an index
    from [-n] to [n-1] is answered, a negative one reading the slot
    counted from the end (so index [-1] shows the last URL); any other
    index makes state, icon and attributes raise [IndexError], while the
    name is still computed. *)
Theorem sensor_index_bounds (d : URLMonitorData) (idx : Z) :
  wf d ->
  let n := Z.of_nat (length (urls d)) in
  let s := mkSensor d idx in
  ((- n <= idx < n)%Z ->
     (exists st, state s = Ret st) /\ (exists ic, icon s = Ret ic) /\
     (exists m, extra_state_attributes s = Ret m)) /\
  ((- n <= idx < 0)%Z ->
     state s = state (mkSensor d (idx + n)) /\
     icon s = icon (mkSensor d (idx + n)) /\
     extra_state_attributes s = extra_state_attributes (mkSensor d (idx + n))) /\
  (~ (- n <= idx < n)%Z ->
     state s = Exc IndexError /\ icon s = Exc IndexError /\
     extra_state_attributes s = Exc IndexError /\
     name s = "URL Monitor " +:+ pretty (idx + 1)%Z).
Proof.
  intros (Ls & Lx & Ll). cbv zeta. unfold state, icon, extra_state_attributes.
  simpl _data. simpl _index. split; [|split].
  - intros Hi.
    destruct (getitem_in_range (states d) idx) as (st & -> & _); [lia|].
    destruct (getitem_in_range (urls d) idx) as (u & -> & _); [lia|].
    destruct (getitem_in_range (status d) idx) as (x & -> & _); [lia|].
    destruct (getitem_in_range (last_updated d) idx) as (t & -> & _); [lia|].
    repeat split; eexists; reflexivity.
  - intros Hi.
    assert (Hshift : forall A (l : list A), length l = length (urls d) ->
              getitem l idx = getitem l (idx + Z.of_nat (length (urls d)))).
    { intros A l Hl. unfold getitem. rewrite Hl.
      destruct (Z.ltb_spec idx 0); [|lia].
      destruct (Z.ltb_spec (idx + Z.of_nat (length (urls d))) 0); [lia|]. reflexivity. }
    rewrite <- !Hshift by auto. auto.
  - intros Hi.
    rewrite (getitem_out_of_range (states d)) by lia.
    rewrite (getitem_out_of_range (urls d)) by lia. auto.
Qed.

Lemma sensor_index_bounds_witness :
  let t := mkDatetime 2024 5 17 9 3 0 0 in
  let env := fun j : nat =>
    match j with
    | 0 => mkProbe (Responded 200 None) t
    | _ => mkProbe (Responded 500 None) t
    end in
  let d := store (_check_urls env (__init__ ["A"; "B"] ["https://a.example"; "https://b.example"])) in
  state (mkSensor d (-1)) = state (mkSensor d 1) /\
  state (mkSensor d 2) = Exc IndexError /\
  state (mkSensor d (-3)) = Exc IndexError.
Proof.
  intros t env d.
  assert (Hwf : wf d) by apply check_urls_wf, wf_init.
  split; [|split].
  - refine (proj1 (proj1 (proj2 (sensor_index_bounds d (-1) Hwf)) _)). simpl. lia.
  - refine (proj1 (proj2 (proj2 (sensor_index_bounds d 2 Hwf)) _)). simpl. lia.
  - refine (proj1 (proj2 (proj2 (sensor_index_bounds d (-3) Hwf)) _)). simpl. lia.
Defined.

(** ** Setup *)

(** X15.  [async_setup] fails with [KeyError] on the first key it does
    not find: the domain, then the names, then the URLs (a configuration
    without both lists fails on the names).  When it succeeds it has only
    put the new monitor under the domain key: every other entry of
    [hass.data] is as before and no timer has been registered by setup
    itself. *)
Theorem setup_missing_keys (h : HomeAssistant)
    (config : gmap string (gmap string (list string))) :
  (config !! DOMAIN = None -> async_setup h config = Exc (KeyError DOMAIN)) /\
  (forall section, config !! DOMAIN = Some section ->
     section !! CONF_NAME = None ->
     async_setup h config = Exc (KeyError CONF_NAME)) /\
  (forall section, config !! DOMAIN = Some section ->
     is_Some (section !! CONF_NAME) -> section !! CONF_URL = None ->
     async_setup h config = Exc (KeyError CONF_URL)) /\
  (forall h', async_setup h config = Ret h' ->
     listeners h' = listeners h /\
     forall key, key <> DOMAIN -> data h' !! key = data h !! key).
Proof.
  unfold async_setup. repeat split.
  - intros ->. reflexivity.
  - intros section -> ->. reflexivity.
  - intros section -> [ns ->] ->. reflexivity.
  - destruct (config !! DOMAIN) as [section|]; [|discriminate].
    destruct (section !! CONF_NAME); [|discriminate].
    destruct (section !! CONF_URL); [|discriminate].
    injection H as <-. reflexivity.
  - destruct (config !! DOMAIN) as [section|]; [|discriminate].
    destruct (section !! CONF_NAME); [|discriminate].
    destruct (section !! CONF_URL); [|discriminate].
    injection H as <-. simpl. intros key Hkey. now apply lookup_insert_ne.
Qed.

Lemma setup_missing_keys_witness :
  async_setup (mkHass ∅ 0) {[ DOMAIN := ∅ ]} = Exc (KeyError CONF_NAME) /\
  async_setup (mkHass ∅ 0) {[ DOMAIN := {[ CONF_NAME := ["A"] ]} ]} = Exc (KeyError CONF_URL).
Proof.
  split.
  - apply (proj1 (proj2 (setup_missing_keys (mkHass ∅ 0) {[ DOMAIN := ∅ ]})) ∅).
    + apply lookup_singleton_eq.
    + apply lookup_empty.
  - apply (proj1 (proj2 (proj2 (setup_missing_keys (mkHass ∅ 0)
                                  {[ DOMAIN := {[ CONF_NAME := ["A"] ]} ]})))
                 {[ CONF_NAME := ["A"] ]}).
    + apply lookup_singleton_eq.
    + rewrite lookup_singleton_eq. eauto.
    + apply lookup_singleton_ne. discriminate.
Defined.

(** ** The names the module needs *)

Lemma lookup_names_bound (globals : gset string) (l : list string) :
  Forall (fun x => x ∈ globals ∪ predefined) l -> lookup_names globals l = Ret tt.
Proof.
  induction 1 as [|x l Hx _ IH]; simpl; [reflexivity|].
  destruct (decide (x ∈ globals ∪ predefined)); [exact IH | contradiction].
Qed.

Lemma load_step (s : stmt) (rest : list stmt) (globals : gset string) :
  Forall (fun x => x ∈ globals ∪ predefined) (loads s) ->
  load (s :: rest) globals = load rest (list_to_set (binds s) ∪ globals).
Proof. intros H. simpl. now rewrite lookup_names_bound. Qed.

Ltac name_bound :=
  lazymatch goal with
  | |- _ ∈ _ ∪ _ =>
      first [ apply elem_of_union_l; name_bound | apply elem_of_union_r; name_bound ]
  | |- _ ∈ predefined => unfold predefined; name_bound
  | |- _ ∈ list_to_set _ =>
      apply elem_of_list_to_set;
      solve [repeat first [apply list_elem_of_here | apply list_elem_of_further]]
  | |- _ => assumption
  end.

(** X16.  [vol] and [cv] are the only names the module body is missing:
    with these two bound beforehand, every statement of the module finds
    the names it looks up, the body runs to its end, and [CONFIG_SCHEMA],
    [async_setup], [URLMonitor] and [URLMonitorData] are bound. *)
Theorem module_loads_with_vol_and_cv (globals : gset string) :
  "vol" ∈ globals -> "cv" ∈ globals ->
  snd (load module_body globals) = None /\
  Forall (fun x => x ∈ fst (load module_body globals))
         ["CONFIG_SCHEMA"; "async_setup"; "URLMonitor"; "URLMonitorData"].
Proof.
  intros Hvol Hcv. unfold module_body.
  repeat (rewrite load_step;
          [| cbn [loads binds];
             repeat (apply Forall_cons; split; [name_bound|]); apply Forall_nil; exact I]).
  cbn [load fst snd binds]. split; [reflexivity|].
  repeat (apply Forall_cons; split; [name_bound|]). apply Forall_nil. exact I.
Qed.

Lemma module_loads_with_vol_and_cv_witness :
  snd (load module_body {[ "vol"; "cv" ]}) = None.
Proof.
  refine (proj1 (module_loads_with_vol_and_cv {[ "vol"; "cv" ]} _ _)); set_solver.
Defined.
